(** * seifnode: a shallow embedding of the node.js addon and its properties

    The addon wraps four native classes: [SEIFSHA3] (seifsha3.cc, util.h),
    [AESXOR256] (aesxor.cc), [RNG] (rng.cc) and [ECCISAAC] (eccisaac.cc).
    The first part of this file embeds their code; the second part states and
    proves properties of the embedding.

    Libraries the addon links against (Crypto++, the PCG generator, the
    seifrng library with [IsaacRandomPool] and [FileCryptopp]) are not part of
    the repository.  Each of them appears as an interface (a [Class]) whose
    operations the embedding calls exactly where the C++ code does. *)

From Stdlib Require Import ZArith Lia Bool.
From Stdlib Require Import Strings.Byte Strings.Ascii Strings.String.
From stdpp Require Import gmap strings list.

Local Open Scope Z_scope.

(* ===================================================================== *)
(** * Part I: the embedding                                               *)
(* ===================================================================== *)

(** ** Machine integers and bytes *)

Module Mach.

(** [uint8_t] values are [Byte.byte]; conversion from an integer wraps. *)
Definition byte_of_Z (z : Z) : byte :=
  match Byte.of_N (Z.to_N (z mod 256)) with
  | Some b => b
  | None => x00
  end.

Definition Z_of_byte (b : byte) : Z := Z.of_N (Byte.to_N b).

(** Conversion to [uint64_t]. *)
Definition to_u64 (z : Z) : Z := z mod 2 ^ 64.

(** Conversion to a 32 bit [int] (two's complement). *)
Definition to_i32 (z : Z) : Z := (z + 2 ^ 31) mod 2 ^ 32 - 2 ^ 31.

(** [std::bit_xor<uint8_t>]: the operands are promoted, the result is stored
    back into a [uint8_t]. *)
Definition byte_xor (a b : byte) : byte :=
  byte_of_Z (Z.lxor (Z_of_byte a) (Z_of_byte b)).

(** A [std::vector<uint8_t>] of [n] value-initialised elements. *)
Definition zeros (n : nat) : list byte := repeat x00 n.

(** Storing [src] through a pointer to element [off] of a vector: the cells
    inside the vector take the new bytes.  The bytes for which the vector
    has no cell are stored past its end; they are [overrun dst off src]. *)
Definition store (dst : list byte) (off : nat) (src : list byte) : list byte :=
  list_inserts off src dst.

Definition overrun (dst : list byte) (off : nat) (src : list byte) : list byte :=
  drop (length dst - off) src.

(** [std::string(const char* )]: the characters before the first NUL. *)
Fixpoint c_str (s : string) : string :=
  match s with
  | EmptyString => EmptyString
  | String a rest =>
      if Ascii.eqb a Ascii.zero then EmptyString else String a (c_str rest)
  end.

End Mach.
Export Mach.

(** ** Values crossing the node.js boundary *)

Module Js.

Inductive JsValue : Type :=
| JsUndefined
| JsBoolean (b : bool)
| JsString (utf8 : string)              (* a string, as its UTF-8 bytes *)
| JsBuffer (data : list byte)           (* a node::Buffer *)
| JsKeys (enc dec : string).            (* the object {enc: .., dec: ..} *)

(** What a native method leaves behind: the exception scheduled by
    [Nan::ThrowError], if any, and [info.GetReturnValue()], which stays
    [undefined] unless the method sets it. *)
Record CallResult : Type := mkCall {
  thrown : option string;
  returned : JsValue
}.

Definition ThrowError (what : string) : CallResult :=
  {| thrown := Some what; returned := JsUndefined |}.

Definition SetReturn (v : JsValue) : CallResult :=
  {| thrown := None; returned := v |}.

(** [info[i]]: arguments that were not passed read as [undefined]. *)
Definition arg (info : list JsValue) (i : nat) : JsValue :=
  nth i info JsUndefined.

Definition HasInstance (v : JsValue) : bool :=
  match v with JsBuffer _ => true | _ => false end.

Definition IsUndefined (v : JsValue) : bool :=
  match v with JsUndefined => true | _ => false end.

Definition BufferData (v : JsValue) : list byte :=
  match v with JsBuffer data => data | _ => [] end.

(** [v8::String::Utf8Value(v->ToString())] on the values of this model
    (a buffer converts to the string its bytes encode). *)
Definition Utf8Value (v : JsValue) : string :=
  match v with
  | JsUndefined => "undefined"
  | JsBoolean true => "true"
  | JsBoolean false => "false"
  | JsString s => s
  | JsBuffer data => string_of_list_byte data
  | JsKeys _ _ => "[object Object]"
  end.

End Js.
Export Js.

(** ** util.h *)

Module Util.

(** [CryptoPP::SHA3_256]: [Update] with the whole input followed by [Final]
    yields the digest bytes. *)
Class Sha3 : Type := { SHA3_256 : list byte -> list byte }.

Definition DIGESTSIZE : nat := 32.

Section WithSha3.
Context {sha3 : Sha3}.

(** [hashString(digest, str)]: [Final] writes the digest at [digest.data()]. *)
Definition hashString (digest : list byte) (str : string) : list byte :=
  store digest 0 (SHA3_256 (list_byte_of_string str)).

(** [hashBuffer(digest, input, inputLen)]. *)
Definition hashBuffer (digest : list byte) (input : list byte) : list byte :=
  store digest 0 (SHA3_256 input).

End WithSha3.
End Util.

(** ** seifsha3.cc *)

Module SEIFSHA3.
Import Util.

Section WithSha3.
Context {sha3 : Sha3}.

(** [NAN_METHOD(SEIFSHA3::hash)].  A string argument reaches [hashString]
    as a [char*], so [std::string] stops at its first NUL. *)
Definition hash (info : list JsValue) : CallResult :=
  if IsUndefined (arg info 0) then
    ThrowError "Incorrect Arguments. Value to be hashed not provided"
  else
    let digest := zeros DIGESTSIZE in
    let digest :=
      if negb (HasInstance (arg info 0)) then
        hashString digest (c_str (Utf8Value (arg info 0)))
      else
        hashBuffer digest (BufferData (arg info 0)) in
    SetReturn (JsBuffer digest).

End WithSha3.
End SEIFSHA3.

(** ** aesxor.cc *)

Module AesXor.

(** [pcg64_once_insecure] (pcg_random.hpp): construction from a 64 bit seed
    and [operator()], which yields the next output and advances the state. *)
Class Pcg : Type := {
  pcg_state : Type;
  pcg_seed : Z -> pcg_state;
  pcg_next : pcg_state -> Z * pcg_state
}.

(** [CryptoPP::GCM<AES>] behind [AuthenticatedEncryptionFilter] and
    [AuthenticatedDecryptionFilter], keyed by [SetKeyWithIV key iv].
    [inl what] is a thrown [CryptoPP::Exception]; on encryption [inr] holds
    ciphertext and tag, on decryption the recovered plaintext. *)
Class AesGcm : Type := {
  gcm_encrypt : list byte -> list byte -> list byte -> string + list byte;
  gcm_decrypt : list byte -> list byte -> list byte -> string + list byte
}.

(** In [uInt64toBytes] the mask is written [0x00000000000000FF << (8 * i)]:
    both operands have type [int], so for [i >= 4] the shift count reaches
    the width of the type and C++ leaves the result undefined.
    [shl_overflow a n] stands for whatever the build yields there. *)
Class IntShift : Type := { shl_overflow : Z -> Z -> Z }.

Definition AESNODE_DEFAULT_KEY_LENGTH_BYTES : nat := 32.
Definition BLOCKSIZE : nat := 16.   (* CryptoPP::AES::BLOCKSIZE *)

Section WithLibraries.
Context {pcg : Pcg} {gcm : AesGcm} {ish : IntShift}.

(** [a << n] on [int] operands.  For [n < 32] and the operands met here the
    product fits the unsigned type and is converted back to [int], which
    wraps to a negative value at [255 << 24]. *)
Definition int_shl (a n : Z) : Z :=
  if n <? 32 then to_i32 (Z.shiftl a n) else shl_overflow a n.

(** The [i]-th byte stored for the word [w]:
    [static_cast<uint8_t>((w & (0xFF << (8 * i))) >> (8 * i))], the mask being
    converted to [uint64_t] for the [&]. *)
Definition word_byte (w i : Z) : byte :=
  byte_of_Z (Z.shiftr (Z.land w (to_u64 (int_shl 255 (8 * i)))) (8 * i)).

(** [uInt64toBytes(begin, end, out)]: the bytes stored through [out], in the
    order of the stores ([out] advances by one after each). *)
Fixpoint uInt64toBytes (words : list Z) : list byte :=
  match words with
  | [] => []
  | w :: rest => map (word_byte w) (seqZ 0 8) ++ uInt64toBytes rest
  end.

(** [bytesToUInt64(bufferData, bufferLength)], from [returnVal]: one round
    of the [while] loop per byte, in the order of [idx]. *)
Fixpoint bytesToUInt64_from (returnVal : Z) (bufferData : list byte) : Z :=
  match bufferData with
  | [] => returnVal
  | b :: rest =>
      bytesToUInt64_from (to_u64 (to_u64 (Z.shiftl returnVal 8) + Z_of_byte b)) rest
  end.

Definition bytesToUInt64 (bufferData : list byte) : Z :=
  bytesToUInt64_from 0 bufferData.

(** The wrapped object. *)
Record AESXOR256 : Type := mkAESXOR256 { _rng : pcg_state }.

(** [AESXOR256::AESXOR256(seed)]. *)
Definition construct (seed : Z) : AESXOR256 := {| _rng := pcg_seed seed |}.

(** The loop of [getRandom] filling [randomVector]. *)
Fixpoint fillRandomVector (numRand : nat) (rng : pcg_state) : list Z * pcg_state :=
  match numRand with
  | O => ([], rng)
  | S n =>
      let '(x, rng1) := pcg_next rng in
      let '(xs, rng2) := fillRandomVector n rng1 in
      (to_u64 x :: xs, rng2)
  end.

Definition numRand (len : Z) : Z :=
  if Z.rem len 8 =? 0 then Z.quot len 8 else Z.quot len 8 + 1.

(** [getRandom(random, len)]: the bytes stored at [random[0]], [random[1]],
    ... in this order, and the generator afterwards. *)
Definition getRandom (rng : pcg_state) (len : Z) : list byte * pcg_state :=
  let '(randomVector, rng') := fillRandomVector (Z.to_nat (numRand len)) rng in
  (uInt64toBytes randomVector, rng').

(** [encryptBlock] and [decryptBlock]: the IV is a value-initialised vector
    of [BLOCKSIZE] bytes. *)
Definition encryptBlock (key message : list byte) : string + list byte :=
  gcm_encrypt key (zeros BLOCKSIZE) message.

Definition decryptBlock (key cipher : list byte) : string + list byte :=
  gcm_decrypt key (zeros BLOCKSIZE) cipher.

(** [xorRandomData(output, input)].  [random] has [input.size()] elements
    and [getRandom] stores through [random.data()]: the stores for which
    [random] has no element land past its end, in memory that is not the
    vector's; they are the third component.  [std::transform] then reads
    [random[i]] for [i < input.size()].  (A [node::Buffer] is shorter than
    2^31 bytes, so passing [random.size()] as an [int] keeps its value.) *)
Definition xorRandomData (obj : AESXOR256) (output input : list byte)
  : list byte * AESXOR256 * list byte :=
  let random := zeros (length input) in
  let '(stored, rng') := getRandom (_rng obj) (Z.of_nat (length random)) in
  let past := overrun random 0 stored in
  let random := store random 0 stored in
  (store output 0 (zip_with byte_xor input random), {| _rng := rng' |}, past).

(** [NAN_METHOD(AESXOR256::New)], invoked as a constructor. *)
Definition New (info : list JsValue) : string + AESXOR256 :=
  if negb (HasInstance (arg info 0)) then
    inl "Incorrect Arguments. Seed buffer not provided"%string
  else
    inr (construct (bytesToUInt64 (BufferData (arg info 0)))).

Definition key_size_error : string :=
  "Incorrect Arguments. Please provide a key of size 32 bytes".

(** [NAN_METHOD(AESXOR256::encrypt)]: what the method hands to JavaScript and
    the object afterwards.  The bytes [xorRandomData] stores past [random]
    are no part of either; [xorRandomData] tells which they are. *)
Definition encrypt (obj : AESXOR256) (info : list JsValue)
  : CallResult * AESXOR256 :=
  if (length info <? 2)%nat || negb (HasInstance (arg info 0))
     || negb (HasInstance (arg info 1)) then
    (ThrowError ("Incorrect Arguments. Please provide buffers for 'key' " +:+
                 "and 'message' function encrypt(key, message)'"), obj)
  else
    let keyData := BufferData (arg info 0) in
    if negb (length keyData =? AESNODE_DEFAULT_KEY_LENGTH_BYTES)%nat then
      (ThrowError key_size_error, obj)
    else
      let messageData := BufferData (arg info 1) in
      let '(temp, obj', _) :=
        xorRandomData obj (zeros (length messageData)) messageData in
      match encryptBlock keyData temp with
      | inl what => (ThrowError what, obj')
      | inr cipherData => (SetReturn (JsBuffer cipherData), obj')
      end.

(** [NAN_METHOD(AESXOR256::decrypt)]. *)
Definition decrypt (obj : AESXOR256) (info : list JsValue)
  : CallResult * AESXOR256 :=
  if (length info <? 2)%nat || negb (HasInstance (arg info 0))
     || negb (HasInstance (arg info 1)) then
    (ThrowError ("Incorrect Arguments. Please provide buffers for 'key' " +:+
                 "and 'message' -> 'function encrypt(key, message)'"), obj)
  else
    let keyData := BufferData (arg info 0) in
    if negb (length keyData =? AESNODE_DEFAULT_KEY_LENGTH_BYTES)%nat then
      (ThrowError key_size_error, obj)
    else
      let cipherData := BufferData (arg info 1) in
      match decryptBlock keyData cipherData with
      | inl what => (ThrowError what, obj)
      | inr temp =>
          let '(messageData, obj', _) :=
            xorRandomData obj (zeros (length temp)) temp in
          (SetReturn (JsBuffer messageData), obj')
      end.

End WithLibraries.
End AesXor.

(** ** The seifrng library: IsaacRandomPool and FileCryptopp *)

Module Seifrng.

(** What a call of [Initialize] does: it returns a [bool] or throws a
    [std::exception] (a hardware error while gathering entropy). *)
Inductive Attempt : Type :=
| Gathered (enough : bool)
| HardwareError (what : string).

(** [IsaacRandomPool::STATUS] as far as rng.cc distinguishes it. *)
Inductive PoolStatus : Type :=
| POOL_SUCCESS
| POOL_FILE_NOT_FOUND
| POOL_DECRYPTION_ERROR
| POOL_OTHER (code : Z).

(** [IsaacRandomPool].  [Initialize(fileId, multiplier, key)]: rng.cc passes
    the key, [ECCISAAC::generateKeys] calls it without one. *)
Class IsaacRandomPool : Type := {
  pool : Type;
  pool_new : pool;
  Initialize : pool -> string -> Z -> option (list byte) -> Attempt * pool;
  IsInitialized : pool -> string -> list byte -> PoolStatus * pool
}.

(** One call of [Initialize] as the code made it. *)
Record InitializeCall : Type := mkInitializeCall {
  ic_fileId : string;
  ic_multiplier : Z;
  ic_key : option (list byte);
  ic_result : Attempt
}.

(** [FileCryptopp]: what [writeFile] puts into the file for a key and a
    plaintext, what [readFile] recovers from a file's content ([None] when it
    returns [false]), and whether a path can be written ([writeFile] throws
    when it cannot). *)
Class FileCryptopp : Type := {
  fc_encrypt : list byte -> list byte -> list byte;
  fc_decrypt : list byte -> list byte -> option (list byte);
  fc_writable : string -> bool
}.

(** The files this code reaches through [FileCryptopp], by path. *)
Abbreviation Disk := (gmap string (list byte)).

Section WithFileCryptopp.
Context {fc : FileCryptopp}.

Definition fileExists (disk : Disk) (path : string) : bool :=
  bool_decide (is_Some (disk !! path)).

Definition readFile (disk : Disk) (path : string) (key : list byte)
  : option (list byte) :=
  match disk !! path with
  | Some content => fc_decrypt key content
  | None => None
  end.

(** [None]: an exception leaves [writeFile]. *)
Definition writeFile (disk : Disk) (path : string) (data key : list byte)
  : option Disk :=
  if fc_writable path then Some (<[path := fc_encrypt key data]> disk) else None.

End WithFileCryptopp.
End Seifrng.

(** ** rng.cc *)

Module Rng.
Import Util Seifrng.

Definition MAX_ENTROPY_GEN_MULTIPLIER : Z := 6.

Definition not_enough_entropy : string := "Not enough entropy!".

(** How control leaves the [try] block around the [for] loop. *)
Inductive LoopExit : Type :=
| LoopLeft (multiplier : Z)       (* by [break] or by the loop condition *)
| LoopCaught (what : string).     (* into the [catch] clause *)

Section WithLibraries.
Context {sha3 : Sha3} {isaac : IsaacRandomPool}.

(** The block that builds [digest] from the key buffer; it stands, letter
    for letter, in [RNG::isInitialized], [RNG::initialize] and
    [ECCISAAC::New]. *)
Definition keyDigest (bufferData : list byte) : list byte :=
  if (length bufferData <? 32)%nat then
    hashString (zeros DIGESTSIZE) (string_of_list_byte bufferData)
  else
    (* reserve(DIGESTSIZE); std::copy(bufferData, bufferData + bufferLength,
       std::back_inserter(digest)) *)
    [] ++ bufferData.

(** [fileId]: "./" unless the second argument is given; then it is assigned
    from the [char*] of the [Utf8Value], so it stops at the first NUL. *)
Definition fileIdOf (v : JsValue) : string :=
  if negb (IsUndefined v) then c_str (Utf8Value v) else "./".

(** [for (; multiplier < bound; ++multiplier) if (Initialize(..)) break;]
    with [remaining] iterations to go before the condition fails; the calls
    made are listed in order.  The same loop stands in
    [ECCISAAC::generateKeys], with the bound written [6] and no key. *)
Fixpoint entropyLoop (fileId : string) (key : option (list byte))
    (remaining : nat) (multiplier : Z) (prng : pool)
  : LoopExit * pool * list InitializeCall :=
  match remaining with
  | O => (LoopLeft multiplier, prng, [])
  | S remaining' =>
      let '(result, prng') := Initialize prng fileId multiplier key in
      let call := mkInitializeCall fileId multiplier key result in
      match result with
      | HardwareError what => (LoopCaught what, prng', [call])
      | Gathered true => (LoopLeft multiplier, prng', [call])
      | Gathered false =>
          let '(exit, prng'', calls) :=
            entropyLoop fileId key remaining' (multiplier + 1) prng' in
          (exit, prng'', call :: calls)
      end
  end.

(** What follows the loop in both methods. *)
Definition afterLoop (bound : Z) (exit : LoopExit) : option string :=
  match exit with
  | LoopCaught what => Some what
  | LoopLeft multiplier =>
      if multiplier =? bound then Some not_enough_entropy else None
  end.

(** [NAN_METHOD(RNG::initialize)] on the global [l_PRNG]. *)
Definition initialize (l_PRNG : pool) (info : list JsValue)
  : CallResult * pool * list InitializeCall :=
  if negb (HasInstance (arg info 0)) then
    (ThrowError "Incorrect Arguments. File Identifier buffer not provided",
     l_PRNG, [])
  else
    let fileId := fileIdOf (arg info 1) in
    let digest := keyDigest (BufferData (arg info 0)) in
    let multiplier := 0 in
    let '(exit, l_PRNG', calls) :=
      entropyLoop fileId (Some digest)
        (Z.to_nat (MAX_ENTROPY_GEN_MULTIPLIER - multiplier)) multiplier l_PRNG in
    match afterLoop MAX_ENTROPY_GEN_MULTIPLIER exit with
    | Some what => (ThrowError what, l_PRNG', calls)
    | None => (SetReturn (JsBoolean true), l_PRNG', calls)
    end.

(** [RNG::Worker], as queued by [RNG::isInitialized]. *)
Record Worker : Type := mkWorker {
  _fileId : string;
  _digest : list byte
}.

(** [NAN_METHOD(RNG::isInitialized)]: the worker it queues, if any. *)
Definition isInitialized (info : list JsValue) : CallResult * option Worker :=
  if negb (HasInstance (arg info 0)) then
    (ThrowError "Incorrect Arguments. Key buffer not provided", None)
  else
    let fileId := fileIdOf (arg info 1) in
    let digest := keyDigest (BufferData (arg info 0)) in
    (SetReturn JsUndefined, Some (mkWorker fileId digest)).

(** [RNG::Worker::Execute]: the status and the error message set, if any. *)
Definition Execute (l_PRNG : pool) (w : Worker)
  : PoolStatus * option string * pool :=
  let '(_result, l_PRNG') := IsInitialized l_PRNG (_fileId w) (_digest w) in
  match _result with
  | POOL_SUCCESS => (_result, None, l_PRNG')
  | POOL_FILE_NOT_FOUND => (_result, Some "File Not Found"%string, l_PRNG')
  | POOL_DECRYPTION_ERROR => (_result, Some "Decryption Error"%string, l_PRNG')
  | POOL_OTHER _ => (_result, Some "Unknown Error"%string, l_PRNG')
  end.

End WithLibraries.
End Rng.

(** ** eccisaac.cc *)

Module EccIsaac.
Import Util Seifrng Rng.

(** [ECCISAAC::STATUS]. *)
Inductive STATUS : Type :=
| SUCCESS
| FILE_NOT_FOUND
| DECRYPTION_ERROR
| ENTROPY_ERROR
| RNG_INIT_ERROR.

Definition status_code (s : STATUS) : Z :=
  match s with
  | SUCCESS => 0
  | FILE_NOT_FOUND => -1
  | DECRYPTION_ERROR => -2
  | ENTROPY_ERROR => -3
  | RNG_INIT_ERROR => -4
  end.

Definition RNG_STATE_FILE_NAME : string := ".ecies.rng".
Definition PRIV_KEY_FILE_NAME : string := ".ecies.private.key".
Definition PUB_KEY_FILE_NAME : string := ".ecies.public.key".

(** Crypto++ as eccisaac.cc uses it: [ECIES<ECP>] keys on secp521r1 drawn
    from a pool, the public key of a private key, [ThrowIfInvalid(prng, 3)]
    ([false]: it throws), [Save] into a string, [Load] from a string
    ([None]: it throws), and [HexEncoder]. *)
Class Ecies {isaac : IsaacRandomPool} : Type := {
  PrivateKey : Type;
  PublicKey : Type;
  ecies_generate : pool -> PrivateKey * pool;
  ecies_public : PrivateKey -> PublicKey;
  private_valid : pool -> PrivateKey -> bool * pool;
  public_valid : pool -> PublicKey -> bool * pool;
  private_save : PrivateKey -> list byte;
  public_save : PublicKey -> list byte;
  private_load : list byte -> option PrivateKey;
  public_load : list byte -> option PublicKey;
  HexEncoder : list byte -> string
}.

(** [std::string::back()] on an empty string is undefined;
    [back_of_empty] stands for the character the build reads there. *)
Class EmptyBack : Type := { back_of_empty : ascii }.

Section WithLibraries.
Context {sha3 : Sha3} {isaac : IsaacRandomPool} {fc : FileCryptopp}
        {ecies : Ecies} {eb : EmptyBack}.

(** The wrapped object. *)
Record ECCISAAC : Type := mkECCISAAC {
  _key : list byte;
  _folderPath : string
}.

(** [SavePrivateKey] and [SavePublicKey]; [None]: an exception leaves. *)
Definition SavePrivateKey (disk : Disk) (privateKey : PrivateKey)
    (file : string) (key : list byte) (folderPath : string) : option Disk :=
  writeFile disk (folderPath +:+ file) (private_save privateKey) key.

Definition SavePublicKey (disk : Disk) (publicKey : PublicKey)
    (file : string) (key : list byte) (folderPath : string) : option Disk :=
  writeFile disk (folderPath +:+ file) (public_save publicKey) key.

(** [LoadPrivateKey]: the status returned and the key loaded into the
    reference argument; [None] when [Load] throws. *)
Definition LoadPrivateKey (disk : Disk) (file : string) (key : list byte)
    (folderPath : string) : option (STATUS * option PrivateKey) :=
  if negb (fileExists disk (folderPath +:+ file)) then
    Some (FILE_NOT_FOUND, None)
  else
    match readFile disk (folderPath +:+ file) key with
    | None => Some (DECRYPTION_ERROR, None)
    | Some keyStr =>
        match private_load keyStr with
        | None => None
        | Some privateKey => Some (SUCCESS, Some privateKey)
        end
    end.

Definition LoadPublicKey (disk : Disk) (file : string) (key : list byte)
    (folderPath : string) : option (STATUS * option PublicKey) :=
  if negb (fileExists disk (folderPath +:+ file)) then
    Some (FILE_NOT_FOUND, None)
  else
    match readFile disk (folderPath +:+ file) key with
    | None => Some (DECRYPTION_ERROR, None)
    | Some keyStr =>
        match public_load keyStr with
        | None => None
        | Some publicKey => Some (SUCCESS, Some publicKey)
        end
    end.

(** What [ECCISAAC::loadKeys] hands back: the status and the two string
    arguments, which it fills only on the way to [SUCCESS]. *)
Record Loaded : Type := mkLoaded {
  rc : STATUS;
  encodedPub : string;
  encodedPriv : string
}.

(** [ECCISAAC::loadKeys(encodedPub, encodedPriv, key, folderPath)]; [None]
    when an exception leaves it.  (The digest of [encodedPriv] and the
    [fileId] computed before the final [return] are not used.) *)
Definition loadKeys (disk : Disk) (key : list byte) (folderPath : string)
  : option Loaded :=
  match LoadPrivateKey disk PRIV_KEY_FILE_NAME key folderPath with
  | None => None
  | Some (SUCCESS, Some d0) =>
      match LoadPublicKey disk PUB_KEY_FILE_NAME key folderPath with
      | None => None
      | Some (SUCCESS, Some e0) =>
          Some (mkLoaded SUCCESS (HexEncoder (public_save e0))
                         (HexEncoder (private_save d0)))
      | Some (rc, _) => Some (mkLoaded rc EmptyString EmptyString)
      end
  | Some (rc, _) => Some (mkLoaded rc EmptyString EmptyString)
  end.

(** The members of [ECCISAAC::Worker] that [Execute] sets.  [_status] has
    the type [ECCISAAC::STATUS], an [enum class] over [int] without an
    initialiser: it is held here as the [int] it stores. *)
Record WorkerMembers : Type := mkWorkerMembers {
  _status : Z;
  _encodedPub : string;
  _encodedPriv : string
}.

(** [ECCISAAC::Worker::Execute]: the members the callbacks will see and the
    error message set.  When an exception reaches the [catch (...)] the
    member [_status] was never assigned; [stale] is the [int] it holds
    then, which need not be the code of an enumerator. *)
Definition Execute (stale : Z) (disk : Disk) (_wkey : list byte)
    (_wfolderPath : string) : WorkerMembers * option string :=
  match loadKeys disk _wkey _wfolderPath with
  | Some l =>
      let members :=
        mkWorkerMembers (status_code (rc l)) (encodedPub l) (encodedPriv l) in
      match rc l with
      | SUCCESS => (members, None)
      | FILE_NOT_FOUND => (members, Some "File Not Found"%string)
      | DECRYPTION_ERROR => (members, Some "Decryption Error"%string)
      | _ => (members, Some "Unknown Error"%string)
      end
  | None =>
      (mkWorkerMembers stale EmptyString EmptyString, Some "Unknown Error"%string)
  end.

(** What [ECCISAAC::generateKeys] leaves behind. *)
Record Generated : Type := mkGenerated {
  ok : bool;                          (* the value returned *)
  error : option string;              (* scheduled by [Nan::ThrowError] *)
  genPub : string;                    (* [encodedPub] *)
  genPriv : string;                   (* [encodedPriv] *)
  disk_after : Disk;
  calls : list InitializeCall         (* the calls of [prng.Initialize] *)
}.

(** The [try] block that validates and saves the two keys; [None] when
    control reaches [catch (...)], with the disk as it is by then. *)
Definition validateAndSave (disk : Disk) (prng : pool) (d0 : PrivateKey)
    (e0 : PublicKey) (key : list byte) (folderPath : string)
  : option Disk * Disk :=
  let '(valid, prng1) := private_valid prng d0 in
  if negb valid then (None, disk) else
  let '(valid, prng2) := public_valid prng1 e0 in
  if negb valid then (None, disk) else
  match SavePrivateKey disk d0 PRIV_KEY_FILE_NAME key folderPath with
  | None => (None, disk)
  | Some disk1 =>
      match SavePublicKey disk1 e0 PUB_KEY_FILE_NAME key folderPath with
      | None => (None, disk1)
      | Some disk2 => (Some disk2, disk2)
      end
  end.

(** [ECCISAAC::generateKeys(encodedPub, encodedPriv, key, folderPath)]. *)
Definition generateKeys (disk : Disk) (key : list byte) (folderPath : string)
  : Generated :=
  let fileId := folderPath +:+ RNG_STATE_FILE_NAME in
  let prng := pool_new in
  let multiplier := 0 in
  let '(exit, prng, calls) :=
    entropyLoop fileId None (Z.to_nat (6 - multiplier)) multiplier prng in
  match afterLoop 6 exit with
  | Some what => mkGenerated false (Some what) EmptyString EmptyString disk calls
  | None =>
      let '(d0, prng) := ecies_generate prng in
      let e0 := ecies_public d0 in
      match validateAndSave disk prng d0 e0 key folderPath with
      | (None, disk') => mkGenerated false None EmptyString EmptyString disk' calls
      | (Some _, disk') =>
          mkGenerated true None (HexEncoder (public_save e0))
                      (HexEncoder (private_save d0)) disk' calls
      end
  end.

(** [NAN_METHOD(ECCISAAC::generateKeys)]. *)
Definition generateKeys_method (obj : ECCISAAC) (disk : Disk)
  : CallResult * Generated :=
  let g := generateKeys disk (_key obj) (_folderPath obj) in
  if negb (ok g) then
    ({| thrown := error g; returned := JsUndefined |}, g)
  else
    (SetReturn (JsKeys (genPub g) (genPriv g)), g).

(** [folder.back() != '/'].  On an empty string [back()] is undefined: it
    reads the character before the string's storage, [back_of_empty]. *)
Definition lacksSlash (folder : string) : bool :=
  match last (list_ascii_of_string folder) with
  | Some c => negb (Ascii.eqb c "/"%char)
  | None => negb (Ascii.eqb back_of_empty "/"%char)
  end.

(** [NAN_METHOD(ECCISAAC::New)], invoked as a constructor. *)
Definition New (info : list JsValue) : string + ECCISAAC :=
  if negb (HasInstance (arg info 0)) then
    inl "Incorrect Arguments. Disk access key buffer not provided"%string
  else
    let digest := keyDigest (BufferData (arg info 0)) in
    let folder :=
      if negb (IsUndefined (arg info 1)) then
        (* folder = *str: the characters before the first NUL *)
        let folder := c_str (Utf8Value (arg info 1)) in
        if lacksSlash folder then folder +:+ "/" else folder
      else "./"%string in
    inr (mkECCISAAC digest folder).

End WithLibraries.
End EccIsaac.

(** ** Reference notions used by the statements *)

Module Notions.

(** The number a byte string denotes, most significant byte first. *)
Fixpoint big_endian (bytes : list byte) : Z :=
  match bytes with
  | [] => 0
  | b :: rest => Z_of_byte b * 256 ^ Z.of_nat (length rest) + big_endian rest
  end.

(** The final eight bytes of a buffer (all of it when it is shorter). *)
Definition last8 (bytes : list byte) : list byte :=
  drop (length bytes - 8) bytes.

(** The [i]-th byte of a 64 bit word, least significant byte first. *)
Definition little_endian_byte (w : Z) (i : Z) : byte :=
  byte_of_Z (Z.shiftr w (8 * i)).

(** The bytes of [random] that [xorRandomData] combines with an input of
    [n] bytes, for an object in a given state. *)
Definition whiteningStream `{AesXor.Pcg} `{AesXor.IntShift}
    (obj : AesXor.AESXOR256) (n : nat) : list byte :=
  take n (fst (AesXor.getRandom (AesXor._rng obj) (Z.of_nat n))).

(** The object after [xorRandomData] has drawn the stream for [n] bytes. *)
Definition advanced `{AesXor.Pcg} `{AesXor.IntShift}
    (obj : AesXor.AESXOR256) (n : nat) : AesXor.AESXOR256 :=
  {| AesXor._rng := snd (AesXor.getRandom (AesXor._rng obj) (Z.of_nat n)) |}.

(** An attempt that reported too little entropy. *)
Definition failed (c : Seifrng.InitializeCall) : Prop :=
  Seifrng.ic_result c = Seifrng.Gathered false.

(** The pool after the calls of [Initialize] with the multipliers
    [0 .. k-1], each on the pool the call before left. *)
Fixpoint poolAfter `{Seifrng.IsaacRandomPool} (fileId : string)
    (key : option (list byte)) (p : Seifrng.pool) (k : nat) : Seifrng.pool :=
  match k with
  | O => p
  | S j =>
      snd (Seifrng.Initialize (poolAfter fileId key p j) fileId (Z.of_nat j) key)
  end.

(** What the pool answers to the call with multiplier [k] that follows
    them. *)
Definition answer `{Seifrng.IsaacRandomPool} (fileId : string)
    (key : option (list byte)) (p : Seifrng.pool) (k : nat) : Seifrng.Attempt :=
  fst (Seifrng.Initialize (poolAfter fileId key p k) fileId (Z.of_nat k) key).

(** The calls with the multipliers [0 .. n-1] and the pool's answers. *)
Definition callsUpTo `{Seifrng.IsaacRandomPool} (fileId : string)
    (key : option (list byte)) (p : Seifrng.pool) (n : nat)
  : list Seifrng.InitializeCall :=
  map (fun k => Seifrng.mkInitializeCall fileId (Z.of_nat k) key
                  (answer fileId key p k))
      (seq 0 n).

End Notions.

(** ** Small executable libraries

    Instances of the interfaces on which the embedding runs to a value.
    They stand in for the real libraries in examples only. *)

Module Demo.
Import Util AesXor Seifrng EccIsaac.

(** A digest of the right size: the input, zero padded or cut to 32 bytes. *)
Definition demo_sha3 : Sha3 :=
  {| SHA3_256 := fun m => take 32 (m ++ zeros 32) |}.

(** A 64 bit linear congruential generator. *)
Definition demo_pcg : Pcg :=
  {| pcg_state := Z;
     pcg_seed := fun seed => to_u64 seed;
     pcg_next := fun s =>
       let s' := to_u64 (s * 6364136223846793005 + 1442695040888963407) in
       (s', s') |}.

(** A shift that uses the low five bits of the count, as the x86 [shl]
    instruction does on 32 bit operands. *)
Definition demo_shift : IntShift :=
  {| shl_overflow := fun a n => to_i32 (Z.shiftl a (n mod 32)) |}.

(** A cipher that prepends a one byte tag taken from the key and refuses
    keys of the wrong size and ciphertexts with another tag. *)
Definition demo_gcm : AesGcm :=
  {| gcm_encrypt := fun key iv m =>
       match key with
       | k :: _ => inr (k :: m)
       | [] => inl "AES/GCM: 0 is not a valid key length"%string
       end;
     gcm_decrypt := fun key iv c =>
       match key, c with
       | k :: _, t :: m =>
           if Byte.eqb k t then inr m
           else inl "HashVerificationFilter: message hash or MAC not valid"%string
       | _, _ =>
           inl "HashVerificationFilter: message hash or MAC not valid"%string
       end |}.

(** A pool that counts the calls made on it and answers [Initialize] from a
    script indexed by the multiplier. *)
Definition demo_pool (script : Z -> Attempt) : IsaacRandomPool :=
  {| pool := nat;
     pool_new := O;
     Initialize := fun p fileId multiplier key => (script multiplier, S p);
     IsInitialized := fun p fileId key => (POOL_FILE_NOT_FOUND, p) |}.

Definition never_enough : Z -> Attempt := fun _ => Gathered false.
Definition enough_from (k : Z) : Z -> Attempt := fun m => Gathered (k <=? m).
Definition breaks_at (k : Z) : Z -> Attempt :=
  fun m => if m =? k then HardwareError "RDRAND failure" else Gathered false.

(** Files tagged with the first byte of the key that wrote them. *)
Definition demo_fc : FileCryptopp :=
  {| fc_encrypt := fun key data => take 1 key ++ data;
     fc_decrypt := fun key content =>
       match key, content with
       | k :: _, t :: data => if Byte.eqb k t then Some data else None
       | _, _ => None
       end;
     fc_writable := fun _ => true |}.

(** Keys are byte strings; [validPriv] and [validPub] fix what validation answers. *)
Definition demo_ecies (script : Z -> Attempt) (validPriv validPub : bool)
  : @Ecies (demo_pool script) :=
  @Build_Ecies (demo_pool script) (list byte) (list byte)
    (fun p : nat => ([x01; x02; x03], S p))      (* ecies_generate *)
    (fun d => rev d)                             (* ecies_public *)
    (fun (p : nat) _ => (validPriv, S p))        (* private_valid *)
    (fun (p : nat) _ => (validPub, S p))         (* public_valid *)
    (fun d => d) (fun e => e)                    (* private_save, public_save *)
    (fun s => Some s) (fun s => Some s)          (* private_load, public_load *)
    (fun s => string_of_list_byte s).            (* HexEncoder *)

(** A build in which the character before an empty string is NUL. *)
Definition demo_back : EmptyBack := {| back_of_empty := Ascii.zero |}.

(** A 32 byte key, another one, and a folder holding a private key file
    written under the first key but no public key file. *)
Definition key_A : list byte := repeat "A"%byte 32.
Definition key_B : list byte := repeat "B"%byte 32.

Definition disk_private_only : Disk :=
  {[ ("./" +:+ PRIV_KEY_FILE_NAME) := fc_encrypt (FileCryptopp := demo_fc) key_A [x01; x02; x03] ]}.

End Demo.

(** ** eccisaac.cc: the worker's callbacks, encrypt and decrypt *)

Module EccIsaacMore.
Import Util Seifrng Rng EccIsaac.

(** What a C++ [try] block can be left with: an exception derived from
    [std::exception], with its [what()], or any other exception. *)
Inductive Fault : Type :=
| StdException (what : string)
| OtherException.

(** Crypto++ as [ECCISAAC::encrypt] and [ECCISAAC::decrypt] use it:
    [HexDecoder], the exception [Load] throws on bytes it rejects,
    [PK_EncryptorFilter] and [PK_DecryptorFilter] over an
    [AutoSeededRandomPool], whose seeding from the operating system is the
    [os_random] argument. *)
Class EciesCipher {isaac : IsaacRandomPool} {ecies : Ecies} : Type := {
  HexDecoder : string -> list byte;
  os_random : Type;
  load_fault : list byte -> Fault;
  ecies_encrypt : os_random -> PublicKey -> list byte -> Fault + list byte;
  ecies_decrypt : os_random -> PrivateKey -> list byte -> Fault + list byte
}.

(** The values a callback is called with. *)
Inductive CallbackValue : Type :=
| CbStatus (code : Z) (message : string)   (* {code: .., message: ..} *)
| CbKeys (enc dec : string)                (* {enc: .., dec: ..} *)
| CbUndefined.

Section WithLibraries.
Context {sha3 : Sha3} {isaac : IsaacRandomPool} {fc : FileCryptopp}
        {ecies : Ecies} {cipher : EciesCipher}.

(** [ECCISAAC::Worker::HandleOKCallback]: the arguments of the callback. *)
Definition HandleOKCallback (w : WorkerMembers) : list CallbackValue :=
  [CbStatus 0 "Success"; CbKeys (_encodedPub w) (_encodedPriv w)].

(** [ECCISAAC::Worker::HandleErrorCallback]: the code is [(int)_status]. *)
Definition HandleErrorCallback (w : WorkerMembers) (ErrorMessage : string)
  : list CallbackValue :=
  [CbStatus (_status w) ErrorMessage; CbUndefined].

(** [Nan::AsyncWorker] after [Execute]: the OK callback when no error
    message was set, the error callback otherwise. *)
Definition WorkComplete (done : WorkerMembers * option string)
  : list CallbackValue :=
  match snd done with
  | None => HandleOKCallback (fst done)
  | Some ErrorMessage => HandleErrorCallback (fst done) ErrorMessage
  end.

(** [NAN_METHOD(ECCISAAC::loadKeys)]: the worker built from the object, run
    to completion. *)
Definition loadKeys_method (stale : Z) (obj : ECCISAAC) (disk : Disk)
  : list CallbackValue :=
  WorkComplete (EccIsaac.Execute stale disk (_key obj) (_folderPath obj)).

(** The two [catch] clauses of [encrypt] and [decrypt]. *)
Definition caught (f : Fault) : CallResult :=
  match f with
  | StdException what => ThrowError what
  | OtherException => ThrowError "Unknown error while encrypting message"
  end.

(** [NAN_METHOD(ECCISAAC::encrypt)]. *)
Definition encrypt (os : os_random) (info : list JsValue) : CallResult :=
  if IsUndefined (arg info 0) then
    ThrowError "Incorrect Arguments. Missing Public key string"
  else if negb (HasInstance (arg info 1)) then
    ThrowError "Incorrect Arguments. Message buffer not provided"
  else
    let pubStr := c_str (Utf8Value (arg info 0)) in
    let messageData := BufferData (arg info 1) in
    let em := HexDecoder pubStr in
    match public_load em with
    | None => caught (load_fault em)
    | Some e1 =>
        match ecies_encrypt os e1 messageData with
        | inl f => caught f
        | inr em0 =>
            let encoded := HexEncoder em0 in
            SetReturn (JsString (c_str encoded))
        end
    end.

(** [NAN_METHOD(ECCISAAC::decrypt)]. *)
Definition decrypt (os : os_random) (info : list JsValue) : CallResult :=
  if IsUndefined (arg info 0) then
    ThrowError "Incorrect Arguments. Missing Public key string"
  else if IsUndefined (arg info 1) then
    ThrowError "Incorrect Arguments. Missing encrypted cipher string"
  else
    let privStr := c_str (Utf8Value (arg info 0)) in
    let encodedCipher := c_str (Utf8Value (arg info 1)) in
    let em := HexDecoder privStr in
    match private_load em with
    | None => caught (load_fault em)
    | Some d1 =>
        let em0 := HexDecoder encodedCipher in
        match ecies_decrypt os d1 em0 with
        | inl f => caught f
        | inr dm0 => SetReturn (JsBuffer dm0)
        end
    end.

End WithLibraries.
End EccIsaacMore.

(** ** Further notions and executable libraries *)

Module MoreNotions.

(** A string without NUL characters. *)
Definition NulFree (s : string) : Prop :=
  Forall (fun a => a <> Ascii.zero) (list_ascii_of_string s).

(** The key files of a folder. *)
Definition privatePath (folderPath : string) : string :=
  folderPath +:+ EccIsaac.PRIV_KEY_FILE_NAME.
Definition publicPath (folderPath : string) : string :=
  folderPath +:+ EccIsaac.PUB_KEY_FILE_NAME.

(** The message [ECCISAAC::Worker::Execute] sets for a status it tells
    apart. *)
Definition statusMessage (s : EccIsaac.STATUS) : string :=
  match s with
  | EccIsaac.SUCCESS => "Success"
  | EccIsaac.FILE_NOT_FOUND => "File Not Found"
  | EccIsaac.DECRYPTION_ERROR => "Decryption Error"
  | _ => "Unknown Error"
  end.

End MoreNotions.

Module DemoMore.
Import Util AesXor Seifrng EccIsaac EccIsaacMore Demo.

(** A shift that yields the mask a 64 bit operand would give. *)
Definition wide_shift : IntShift :=
  {| shl_overflow := fun a n => Z.shiftl a n |}.

(** Files that cannot be written under one path. *)
Definition demo_fc_except (blocked : string) : FileCryptopp :=
  {| fc_encrypt := fun key data => take 1 key ++ data;
     fc_decrypt := fun key content =>
       match key, content with
       | k :: _, t :: data => if Byte.eqb k t then Some data else None
       | _, _ => None
       end;
     fc_writable := fun path => negb (String.eqb path blocked) |}.

(** A cipher that prepends the public key to the message; the private key
    is the public key reversed, as in [demo_ecies]. *)
Definition demo_cipher (script : Z -> Attempt) (validPriv validPub : bool)
  : @EciesCipher (demo_pool script) (demo_ecies script validPriv validPub) :=
  @Build_EciesCipher (demo_pool script) (demo_ecies script validPriv validPub)
    (fun s => list_byte_of_string s)                       (* HexDecoder *)
    unit                                                   (* os_random *)
    (fun _ => StdException "BER decode error")             (* load_fault *)
    (fun _ (e : list byte) m => inr (e ++ m))              (* ecies_encrypt *)
    (fun _ (d : list byte) c =>                            (* ecies_decrypt *)
       if (length c <? length d)%nat
       then inl (StdException "DL_DecryptorBase: ciphertext not valid")
       else inr (drop (length d) c)).

(** A pool whose first attempt succeeds, with keys that pass validation,
    and a disk without files. *)
Definition ready_pool : IsaacRandomPool := demo_pool (enough_from 0).
Definition valid_ecies : @Ecies ready_pool :=
  demo_ecies (enough_from 0) true true.
Definition valid_cipher : @EciesCipher ready_pool valid_ecies :=
  demo_cipher (enough_from 0) true true.
Definition empty_disk : Disk := ∅.

(** Crypto++ rejecting every private key it is asked to load. *)
Definition picky_ecies : @Ecies ready_pool :=
  @Build_Ecies ready_pool (list byte) (list byte)
    (fun p : nat => ([x01; x02; x03], S p))
    (fun d => rev d)
    (fun (p : nat) _ => (true, S p))
    (fun (p : nat) _ => (true, S p))
    (fun d => d) (fun e => e)
    (fun _ => None) (fun s => Some s)
    (fun s => string_of_list_byte s).

End DemoMore.

(* ===================================================================== *)
(** * Part II: properties                                                 *)
(* ===================================================================== *)

(** ** Bytes *)

Section ByteFacts.
Import Mach.

Lemma Z_of_byte_range (b : byte) : 0 <= Z_of_byte b < 256.
Proof.
  unfold Z_of_byte. pose proof (Byte.to_N_bounded b) as Hb. lia.
Qed.

Lemma Z_of_byte_of_Z (z : Z) : Z_of_byte (byte_of_Z z) = z mod 256.
Proof.
  unfold byte_of_Z, Z_of_byte.
  assert (Hr : 0 <= z mod 256 < 256) by (apply Z.mod_pos_bound; lia).
  destruct (Byte.of_N (Z.to_N (z mod 256))) as [b|] eqn:E.
  - apply Byte.to_of_N in E. rewrite E. lia.
  - apply Byte.of_N_None_iff in E. lia.
Qed.

Lemma byte_of_Z_of_byte (b : byte) : byte_of_Z (Z_of_byte b) = b.
Proof.
  unfold byte_of_Z, Z_of_byte.
  pose proof (Byte.to_N_bounded b) as Hb.
  rewrite Z.mod_small by lia.
  rewrite N2Z.id, Byte.of_to_N. reflexivity.
Qed.

Lemma byte_of_Z_mod (z : Z) : byte_of_Z (z mod 256) = byte_of_Z z.
Proof.
  unfold byte_of_Z. rewrite Z.mod_mod by lia. reflexivity.
Qed.

(** Bits eight and up of a byte value are clear. *)
Lemma Z_of_byte_high_bits (b : byte) (n : Z) :
  8 <= n -> Z.testbit (Z_of_byte b) n = false.
Proof.
  intros Hn. pose proof (Z_of_byte_range b) as Hb.
  destruct (Z.eq_dec (Z_of_byte b) 0) as [->|Hnz].
  - apply Z.bits_0.
  - apply Z.bits_above_log2; [lia|].
    assert (Z.log2 (Z_of_byte b) < 8); [|lia].
    apply Z.log2_lt_pow2; lia.
Qed.

Lemma lxor_bytes_range (a b : byte) :
  0 <= Z.lxor (Z_of_byte a) (Z_of_byte b) < 256.
Proof.
  pose proof (Z_of_byte_range a) as Ha. pose proof (Z_of_byte_range b) as Hb.
  assert (H0 : 0 <= Z.lxor (Z_of_byte a) (Z_of_byte b))
    by (apply Z.lxor_nonneg; lia).
  split; [exact H0|].
  destruct (Z.eq_dec (Z.lxor (Z_of_byte a) (Z_of_byte b)) 0) as [->|Hnz]; [lia|].
  change 256 with (2 ^ 8). apply Z.log2_lt_pow2; [lia|].
  apply Z.nle_gt. intros Hle.
  assert (Hbit := Z.bit_log2 (Z.lxor (Z_of_byte a) (Z_of_byte b)) ltac:(lia)).
  rewrite Z.lxor_spec, !Z_of_byte_high_bits in Hbit by lia.
  discriminate.
Qed.

(** XOR with the same byte twice gives the byte back. *)
Lemma byte_xor_involutive (a r : byte) : byte_xor (byte_xor a r) r = a.
Proof.
  unfold byte_xor. rewrite Z_of_byte_of_Z.
  rewrite Z.mod_small by apply lxor_bytes_range.
  rewrite Z.lxor_assoc, Z.lxor_nilpotent, Z.lxor_0_r.
  apply byte_of_Z_of_byte.
Qed.

Lemma zeros_length (n : nat) : length (zeros n) = n.
Proof. apply repeat_length. Qed.

(** A store at the start of a vector of the same size replaces it. *)
Lemma store_whole (dst src : list byte) :
  length src = length dst -> store dst 0 src = src.
Proof.
  intros Hlen. unfold store.
  rewrite <- (app_nil_r src) at 1.
  rewrite list_inserts_0_l by exact Hlen. reflexivity.
Qed.

(** A longer source fills the vector with its first bytes. *)
Lemma store_prefix (dst src : list byte) :
  (length dst <= length src)%nat -> store dst 0 src = take (length dst) src.
Proof.
  intros Hlen. unfold store.
  rewrite <- (take_drop (length dst) src) at 1.
  apply list_inserts_0_l. rewrite length_take. lia.
Qed.

Lemma store_length (dst src : list byte) (off : nat) :
  length (store dst off src) = length dst.
Proof. apply length_inserts. Qed.

End ByteFacts.

(** ** util.h and seifsha3.cc *)

Section HashFacts.
Import Util SEIFSHA3.
Context {sha3 : Sha3}.

Lemma hashString_length (digest : list byte) (str : string) :
  length (hashString digest str) = length digest.
Proof. apply store_length. Qed.

Lemma hashBuffer_length (digest input : list byte) :
  length (hashBuffer digest input) = length digest.
Proof. apply store_length. Qed.

(** With a primitive whose digest has [DIGESTSIZE] bytes, the vector holds
    the digest of the buffer. *)
Lemma hashBuffer_digest (input : list byte) :
  length (SHA3_256 input) = DIGESTSIZE ->
  hashBuffer (zeros DIGESTSIZE) input = SHA3_256 input.
Proof.
  intros Hlen. apply store_whole. rewrite zeros_length. exact Hlen.
Qed.

Lemma hashString_digest (bytes : list byte) :
  length (SHA3_256 bytes) = DIGESTSIZE ->
  hashString (zeros DIGESTSIZE) (string_of_list_byte bytes) = SHA3_256 bytes.
Proof.
  intros Hlen. unfold hashString.
  rewrite list_byte_of_string_of_list_byte.
  apply store_whole. rewrite zeros_length. exact Hlen.
Qed.

(** A string is hashed up to its first NUL character. *)
Lemma hash_string_argument (s : string) (rest : list JsValue) :
  hash (JsString s :: rest)
  = SetReturn (JsBuffer (hashString (zeros DIGESTSIZE) (c_str s))).
Proof. reflexivity. Qed.

(** C9: [hash] of a buffer, the empty one included, throws nothing and
    returns the digest that the SHA3-256 primitive yields for exactly the
    bytes of the buffer, 32 bytes long; so the result is a function of these
    bytes alone.  A string is hashed in the same way, through the bytes
    before its first NUL.  Further arguments are not looked at.  (The
    primitive's digest has [DIGESTSIZE] bytes: the two hypotheses.) *)
Theorem C9_hash_returns_32_bytes
    (data : list byte) (s : string) (rest : list JsValue) :
  length (SHA3_256 data) = DIGESTSIZE ->
  length (SHA3_256 (list_byte_of_string (c_str s))) = DIGESTSIZE ->
  hash (JsBuffer data :: rest) = SetReturn (JsBuffer (SHA3_256 data))
  /\ hash (JsString s :: rest)
     = SetReturn (JsBuffer (SHA3_256 (list_byte_of_string (c_str s))))
  /\ thrown (hash (JsBuffer data :: rest)) = None
  /\ thrown (hash (JsString s :: rest)) = None
  /\ (forall digest,
        returned (hash (JsBuffer data :: rest)) = JsBuffer digest
        \/ returned (hash (JsString s :: rest)) = JsBuffer digest ->
        length digest = 32%nat).
Proof.
  intros Hdata Hs.
  assert (Hb : hash (JsBuffer data :: rest) = SetReturn (JsBuffer (SHA3_256 data))).
  { unfold hash. cbn [arg nth IsUndefined HasInstance negb BufferData].
    rewrite hashBuffer_digest by exact Hdata. reflexivity. }
  assert (Hstr : hash (JsString s :: rest)
                 = SetReturn (JsBuffer (SHA3_256 (list_byte_of_string (c_str s))))).
  { rewrite hash_string_argument. unfold hashString.
    rewrite store_whole by (rewrite zeros_length; exact Hs). reflexivity. }
  rewrite Hb, Hstr. repeat split.
  intros digest [H|H]; cbn in H; injection H as <-; assumption.
Qed.

End HashFacts.

(** ** aesxor.cc: the whitening stream *)

Section StreamFacts.
Import AesXor Notions.
Context {pcg : Pcg} {gcm : AesGcm} {ish : IntShift}.

Lemma uInt64toBytes_length (words : list Z) :
  length (uInt64toBytes words) = (8 * length words)%nat.
Proof.
  induction words as [|w rest IH]; [reflexivity|].
  cbn [uInt64toBytes length].
  rewrite length_app, IH, length_map, length_seqZ. lia.
Qed.

Lemma fillRandomVector_length (n : nat) (rng : pcg_state) :
  length (fst (fillRandomVector n rng)) = n.
Proof.
  revert rng. induction n as [|n IH]; intros rng; [reflexivity|].
  cbn [fillRandomVector]. destruct (pcg_next rng) as [x rng1].
  specialize (IH rng1). destruct (fillRandomVector n rng1) as [xs rng2].
  cbn in *. lia.
Qed.

(** [getRandom] stores eight bytes for every word it draws. *)
Lemma getRandom_length (rng : pcg_state) (len : Z) :
  length (fst (getRandom rng len)) = (8 * Z.to_nat (numRand len))%nat.
Proof.
  unfold getRandom.
  pose proof (fillRandomVector_length (Z.to_nat (numRand len)) rng) as Hn.
  destruct (fillRandomVector (Z.to_nat (numRand len)) rng) as [ws rng'].
  cbn in *. rewrite uInt64toBytes_length, Hn. reflexivity.
Qed.

Lemma numRand_spec (len : Z) :
  0 <= len ->
  numRand len = (len + 7) / 8 /\ len <= 8 * numRand len < len + 8.
Proof.
  intros Hlen. unfold numRand.
  rewrite Z.rem_mod_nonneg, Z.quot_div_nonneg by lia.
  destruct (Z.eqb_spec (len mod 8) 0) as [E|E];
    Z.div_mod_to_equations; lia.
Qed.

(** The stores cover the buffer, and run past its end exactly when the
    length asked for is not a multiple of eight. *)
Lemma getRandom_covers (rng : pcg_state) (n : nat) :
  (n <= length (fst (getRandom rng (Z.of_nat n))))%nat.
Proof.
  rewrite getRandom_length.
  pose proof (numRand_spec (Z.of_nat n) ltac:(lia)) as [_ H]. lia.
Qed.

Lemma getRandom_overrun (rng : pcg_state) (n : nat) :
  (Z.of_nat n) mod 8 <> 0 ->
  (n < length (fst (getRandom rng (Z.of_nat n))))%nat.
Proof.
  intros Hrem. rewrite getRandom_length.
  pose proof (numRand_spec (Z.of_nat n) ltac:(lia)) as [_ H].
  assert (8 * numRand (Z.of_nat n) <> Z.of_nat n); [|lia].
  intros E. apply Hrem. rewrite <- E, Z.mul_comm. apply Z.mod_mul. lia.
Qed.

Lemma whiteningStream_length (obj : AESXOR256) (n : nat) :
  length (whiteningStream obj n) = n.
Proof.
  unfold whiteningStream. rewrite length_take.
  pose proof (getRandom_covers (_rng obj) n). lia.
Qed.

(** [xorRandomData] on an output vector of the input's size: the input XORed
    with the whitening stream, the generator advanced, and past [random] the
    bytes [getRandom] stored beyond the input's size. *)
Lemma xorRandomData_stream (obj : AESXOR256) (input : list byte) :
  xorRandomData obj (zeros (length input)) input
  = (zip_with byte_xor input (whiteningStream obj (length input)),
     {| _rng := snd (getRandom (_rng obj) (Z.of_nat (length input))) |},
     drop (length input)
       (fst (getRandom (_rng obj) (Z.of_nat (length input))))).
Proof.
  unfold xorRandomData, whiteningStream, overrun.
  rewrite zeros_length.
  pose proof (getRandom_covers (_rng obj) (length input)) as Hcov.
  destruct (getRandom (_rng obj) (Z.of_nat (length input))) as [stored rng'].
  cbn [fst snd] in *.
  rewrite (store_prefix (zeros (length input)) stored)
    by (rewrite zeros_length; exact Hcov).
  rewrite zeros_length, Nat.sub_0_r.
  f_equal. f_equal. apply store_whole.
  rewrite length_zip_with, length_take, zeros_length. lia.
Qed.

(** The number of bytes [xorRandomData] stores past [random]: what is
    missing from the input's size to the next multiple of eight. *)
Lemma xorRandomData_past (obj : AESXOR256) (input : list byte) :
  length (snd (xorRandomData obj (zeros (length input)) input))
  = (8 * Z.to_nat (numRand (Z.of_nat (length input))) - length input)%nat.
Proof.
  rewrite xorRandomData_stream. cbn [snd].
  rewrite length_drop, getRandom_length. reflexivity.
Qed.

(** No store leaves [random] when the input's size is a multiple of eight. *)
Lemma xorRandomData_in_bounds (obj : AESXOR256) (input : list byte) :
  (length input mod 8 = 0)%nat ->
  snd (xorRandomData obj (zeros (length input)) input) = [].
Proof.
  intros Hmul. apply length_zero_iff_nil. rewrite xorRandomData_past.
  pose proof (numRand_spec (Z.of_nat (length input)) ltac:(lia)) as [Hn _].
  rewrite Hn.
  assert (Hdiv : (Z.of_nat (length input) + 7) / 8 * 8 <= Z.of_nat (length input)).
  { apply Nat.Div0.div_exact in Hmul.
    assert (Hz : Z.of_nat (length input) = 8 * Z.of_nat (length input / 8)) by lia.
    rewrite Hz at 1. Z.div_mod_to_equations. lia. }
  lia.
Qed.

Lemma zip_xor_length (m r : list byte) :
  (length m <= length r)%nat -> length (zip_with byte_xor m r) = length m.
Proof. intros H. rewrite length_zip_with. lia. Qed.

(** Whitening twice with the same stream is the identity. *)
Lemma zip_xor_involutive (m r : list byte) :
  (length m <= length r)%nat ->
  zip_with byte_xor (zip_with byte_xor m r) r = m.
Proof.
  revert r. induction m as [|a m IH]; intros [|b r] Hlen; cbn in *;
    try reflexivity; try lia.
  rewrite byte_xor_involutive, IH by lia. reflexivity.
Qed.

End StreamFacts.

(** ** aesxor.cc: encrypt and decrypt *)

Section CipherFacts.
Import AesXor Notions.
Context {pcg : Pcg} {gcm : AesGcm} {ish : IntShift}.

Lemma encrypt_buffers (obj : AESXOR256) (key message : list byte) :
  encrypt obj [JsBuffer key; JsBuffer message]
  = if negb (length key =? 32)%nat then (ThrowError key_size_error, obj)
    else
      match encryptBlock key
              (zip_with byte_xor message
                 (whiteningStream obj (length message))) with
      | inl what => (ThrowError what, advanced obj (length message))
      | inr cipherData =>
          (SetReturn (JsBuffer cipherData), advanced obj (length message))
      end.
Proof.
  unfold encrypt. cbn [length arg nth HasInstance BufferData Nat.ltb Nat.leb
                       negb orb].
  change AESNODE_DEFAULT_KEY_LENGTH_BYTES with 32%nat.
  rewrite xorRandomData_stream. reflexivity.
Qed.

Lemma decrypt_buffers (obj : AESXOR256) (key cipher : list byte) :
  decrypt obj [JsBuffer key; JsBuffer cipher]
  = if negb (length key =? 32)%nat then (ThrowError key_size_error, obj)
    else
      match decryptBlock key cipher with
      | inl what => (ThrowError what, obj)
      | inr temp =>
          (SetReturn (JsBuffer
             (zip_with byte_xor temp (whiteningStream obj (length temp)))),
           advanced obj (length temp))
      end.
Proof.
  unfold decrypt. cbn [length arg nth HasInstance BufferData Nat.ltb Nat.leb
                       negb orb].
  change AESNODE_DEFAULT_KEY_LENGTH_BYTES with 32%nat.
  destruct (negb (length key =? 32)%nat); [reflexivity|].
  destruct (decryptBlock key cipher) as [what|temp]; [reflexivity|].
  rewrite xorRandomData_stream. reflexivity.
Qed.

(** One generator cannot serve both directions of one message: [encrypt]
    leaves it advanced, and only a stream that comes out the same again
    would undo the whitening. *)
Lemma encrypt_advances (obj : AESXOR256) (key message : list byte) :
  length key = 32%nat ->
  snd (encrypt obj [JsBuffer key; JsBuffer message])
  = advanced obj (length message).
Proof.
  intros Hk. rewrite encrypt_buffers, Hk. cbn [Nat.eqb negb].
  change ((32 =? 32)%nat) with true. cbn [negb].
  destruct (encryptBlock _ _); reflexivity.
Qed.


(** C5: [encrypt] and [decrypt] answer a key buffer that is not 32 bytes
    long with an error and leave the object alone; with a 32 byte key a fault
    of the AES-GCM primitive (a tag that does not verify, on decryption)
    becomes the error thrown; and whenever [decrypt] throws, its return value
    is still [undefined], so no plaintext leaves it. *)
Theorem C5_cipher_faults_are_errors (obj : AESXOR256) (key data : list byte) :
  (length key <> 32%nat ->
     encrypt obj [JsBuffer key; JsBuffer data] = (ThrowError key_size_error, obj)
     /\ decrypt obj [JsBuffer key; JsBuffer data]
        = (ThrowError key_size_error, obj))
  /\ (forall what, length key = 32%nat ->
        encryptBlock key
          (zip_with byte_xor data (whiteningStream obj (length data)))
        = inl what ->
        fst (encrypt obj [JsBuffer key; JsBuffer data]) = ThrowError what)
  /\ (forall what, length key = 32%nat ->
        decryptBlock key data = inl what ->
        decrypt obj [JsBuffer key; JsBuffer data] = (ThrowError what, obj))
  /\ (forall what,
        thrown (fst (decrypt obj [JsBuffer key; JsBuffer data])) = Some what ->
        returned (fst (decrypt obj [JsBuffer key; JsBuffer data]))
        = JsUndefined).
Proof.
  rewrite encrypt_buffers, decrypt_buffers.
  repeat split.
  - apply Nat.eqb_neq in H. rewrite H. reflexivity.
  - apply Nat.eqb_neq in H. rewrite H. reflexivity.
  - intros what Hk Hfault. rewrite Hk, Hfault. reflexivity.
  - intros what Hk Hfault. rewrite Hk, Hfault. reflexivity.
  - intros what.
    destruct (negb (length key =? 32)%nat); [reflexivity|].
    destruct (decryptBlock key data); [reflexivity|].
    cbn. discriminate.
Qed.

End CipherFacts.

(** ** aesxor.cc: from words to bytes *)

Section WordFacts.
Import AesXor Notions.
Context {pcg : Pcg} {gcm : AesGcm} {ish : IntShift}.

Lemma byte_of_Z_congr (x y : Z) :
  x mod 2 ^ 8 = y mod 2 ^ 8 -> byte_of_Z x = byte_of_Z y.
Proof.
  intros H. unfold byte_of_Z. change 256 with (2 ^ 8). rewrite H. reflexivity.
Qed.

(** A mask with bits [k .. k+7] set does not disturb the byte taken at [k]. *)
Lemma masked_byte (w mask k : Z) :
  0 <= k ->
  (forall n, 0 <= n < 8 -> Z.testbit mask (n + k) = true) ->
  byte_of_Z (Z.shiftr (Z.land w mask) k) = byte_of_Z (Z.shiftr w k).
Proof.
  intros Hk Hmask. apply byte_of_Z_congr.
  apply Z.bits_inj'. intros n Hn.
  destruct (Z.lt_ge_cases n 8) as [Hlt|Hge].
  - rewrite !Z.mod_pow2_bits_low, !Z.shiftr_spec, Z.land_spec by lia.
    rewrite Hmask by lia. apply andb_true_r.
  - rewrite !Z.mod_pow2_bits_high by lia. reflexivity.
Qed.

Ltac first_eight n :=
  let H := fresh in
  assert (H : n = 0 \/ n = 1 \/ n = 2 \/ n = 3 \/ n = 4 \/ n = 5 \/ n = 6 \/ n = 7)
    by lia;
  destruct H as [-> | [-> | [-> | [-> | [-> | [-> | [-> | ->]]]]]]].

(** The first four bytes stored for a word are its four low bytes, least
    significant first, whatever the build does with the wide shifts. *)
Lemma word_byte_low (w i : Z) :
  0 <= i < 4 -> word_byte w i = little_endian_byte w i.
Proof.
  intros Hi. unfold word_byte, little_endian_byte, int_shl.
  assert (Hcases : i = 0 \/ i = 1 \/ i = 2 \/ i = 3) by lia.
  destruct Hcases as [-> | [-> | [-> | ->]]];
    (apply masked_byte; [lia|]; intros n Hn; first_eight n; reflexivity).
Qed.

(** For the other four bytes the mask is the undefined wide shift; on a
    build that shifts by the count modulo 32 the word 0x0807060504030201 is
    not stored least significant byte first. *)
Example word_bytes_with_wrapping_shift :
  map (@word_byte Demo.demo_shift 0x0807060504030201) (seqZ 0 8)
  = [x01; x02; x03; x04; x00; x00; x00; x08].
Proof. reflexivity. Qed.

(** C3, at the input where the code departs from it: asked for one byte,
    as [xorRandomData] does for a one byte message with a [random] vector of
    one element, [getRandom] stores eight bytes through [random.data()]. *)
Theorem C3_getRandom_stores_past_the_buffer (obj : AESXOR256) (b : byte) :
  let random := zeros (length [b]) in
  length random = 1%nat
  /\ length (fst (getRandom (_rng obj) (Z.of_nat (length random)))) = 8%nat.
Proof.
  cbn zeta. split; [reflexivity|]. rewrite getRandom_length. reflexivity.
Qed.

(** *** The seed *)

Lemma big_endian_app (l1 l2 : list byte) :
  big_endian (l1 ++ l2)
  = big_endian l1 * 256 ^ Z.of_nat (length l2) + big_endian l2.
Proof.
  induction l1 as [|b l1 IH]; cbn [big_endian app]; [lia|].
  rewrite IH, length_app, Nat2Z.inj_add, Z.pow_add_r by lia. ring.
Qed.

Lemma big_endian_range (l : list byte) :
  0 <= big_endian l < 256 ^ Z.of_nat (length l).
Proof.
  induction l as [|b l IH]; cbn [big_endian length]; [cbn; lia|].
  rewrite Nat2Z.inj_succ, Z.pow_succ_r by lia.
  pose proof (Z_of_byte_range b). nia.
Qed.

(** One round of the accumulation, modulo 2^64. *)
Lemma accumulate_mod (acc b P R : Z) :
  ((((acc * 2 ^ 8) mod 2 ^ 64 + b) mod 2 ^ 64) * P + R) mod 2 ^ 64
  = (acc * (256 * P) + (b * P + R)) mod 2 ^ 64.
Proof.
  rewrite (Z.mod_eq (acc * 2 ^ 8) (2 ^ 64)) by lia.
  set (q1 := acc * 2 ^ 8 / 2 ^ 64).
  rewrite (Z.mod_eq (acc * 2 ^ 8 - 2 ^ 64 * q1 + b) (2 ^ 64)) by lia.
  set (q2 := (acc * 2 ^ 8 - 2 ^ 64 * q1 + b) / 2 ^ 64).
  replace ((acc * 2 ^ 8 - 2 ^ 64 * q1 + b - 2 ^ 64 * q2) * P + R)
    with (acc * (256 * P) + (b * P + R) + (- (q1 + q2) * P) * 2 ^ 64) by ring.
  apply Z.mod_add. lia.
Qed.

Lemma bytesToUInt64_from_spec (l : list byte) (acc : Z) :
  0 <= acc < 2 ^ 64 ->
  bytesToUInt64_from acc l
  = (acc * 256 ^ Z.of_nat (length l) + big_endian l) mod 2 ^ 64.
Proof.
  revert acc. induction l as [|b l IH]; intros acc Hacc.
  - cbn. rewrite Z.mod_small; lia.
  - cbn [bytesToUInt64_from big_endian length].
    rewrite IH by (unfold to_u64; apply Z.mod_pos_bound; lia).
    unfold to_u64. rewrite Z.shiftl_mul_pow2 by lia.
    rewrite Nat2Z.inj_succ, Z.pow_succ_r by lia.
    apply accumulate_mod.
Qed.

(** [bytesToUInt64] accumulates most significant byte first, modulo 2^64. *)
Lemma bytesToUInt64_big_endian (l : list byte) :
  bytesToUInt64 l = big_endian l mod 2 ^ 64.
Proof.
  unfold bytesToUInt64. rewrite bytesToUInt64_from_spec by lia.
  f_equal.
Qed.

Lemma last8_split (l : list byte) :
  l = take (length l - 8) l ++ last8 l
  /\ (length (last8 l) = 8%nat \/ take (length l - 8) l = []).
Proof.
  unfold last8. split; [symmetry; apply take_drop|].
  destruct (le_lt_dec 8 (length l)) as [Hge|Hlt].
  - left. rewrite length_drop. lia.
  - right. replace (length l - 8)%nat with 0%nat by lia. reflexivity.
Qed.

(** Only the final eight bytes of the buffer reach the seed. *)
Lemma bytesToUInt64_last8 (l : list byte) :
  bytesToUInt64 l = bytesToUInt64 (last8 l).
Proof.
  destruct (last8_split l) as [Hsplit Hcase].
  rewrite !bytesToUInt64_big_endian.
  rewrite Hsplit at 1. rewrite big_endian_app.
  destruct Hcase as [H8 | Hnil].
  - rewrite H8. change (256 ^ Z.of_nat 8) with (2 ^ 64).
    rewrite Z.add_comm, Z.mod_add by lia. reflexivity.
  - rewrite Hnil. cbn [big_endian]. f_equal.
Qed.

(** The seed is the number the final eight bytes denote. *)
Lemma bytesToUInt64_tail (l : list byte) :
  bytesToUInt64 l = big_endian (last8 l).
Proof.
  rewrite bytesToUInt64_last8, bytesToUInt64_big_endian.
  apply Z.mod_small.
  pose proof (big_endian_range (last8 l)) as Hr.
  assert (Hlen : (length (last8 l) <= 8)%nat).
  { unfold last8. rewrite length_drop. lia. }
  assert (256 ^ Z.of_nat (length (last8 l)) <= 256 ^ 8)
    by (apply Z.pow_le_mono_r; lia).
  change (256 ^ 8) with (2 ^ 64) in *. lia.
Qed.

(** C10: the seed is the big-endian value of the buffer modulo 2^64, and the
    constructor builds the object whose generator is seeded with the number
    the final eight bytes of the buffer denote; so two seed buffers with the
    same final eight bytes give the same seed, the same object, the same
    whitening streams, and the same results of [encrypt] and [decrypt]. *)
Theorem C10_seed_from_last_8_bytes (b1 b2 : list byte) :
  last8 b1 = last8 b2 ->
  bytesToUInt64 b1 = big_endian b1 mod 2 ^ 64
  /\ bytesToUInt64 b1 = bytesToUInt64 b2
  /\ New [JsBuffer b1] = inr {| _rng := pcg_seed (big_endian (last8 b1)) |}
  /\ New [JsBuffer b2] = inr {| _rng := pcg_seed (big_endian (last8 b1)) |}
  /\ New [JsBuffer b1] = New [JsBuffer b2]
  /\ (forall o1 o2,
        New [JsBuffer b1] = inr o1 -> New [JsBuffer b2] = inr o2 ->
        (forall n, whiteningStream o1 n = whiteningStream o2 n)
        /\ (forall info, encrypt o1 info = encrypt o2 info
                         /\ decrypt o1 info = decrypt o2 info)).
Proof.
  intros Hlast.
  assert (Hseed : bytesToUInt64 b1 = bytesToUInt64 b2).
  { rewrite (bytesToUInt64_last8 b1), (bytesToUInt64_last8 b2), Hlast.
    reflexivity. }
  assert (Hnew : New [JsBuffer b1] = New [JsBuffer b2]).
  { unfold New. cbn [arg nth HasInstance negb BufferData]. rewrite Hseed.
    reflexivity. }
  split; [apply bytesToUInt64_big_endian|].
  split; [exact Hseed|].
  split.
  { unfold New, construct. cbn [arg nth HasInstance negb BufferData].
    rewrite bytesToUInt64_tail. reflexivity. }
  split.
  { unfold New, construct. cbn [arg nth HasInstance negb BufferData].
    rewrite bytesToUInt64_tail, Hlast. reflexivity. }
  split; [exact Hnew|].
  intros o1 o2 H1 H2. rewrite Hnew, H2 in H1.
  injection H1 as <-. split; [reflexivity|]. intros info. split; reflexivity.
Qed.

End WordFacts.

(** ** rng.cc: the entropy loop and the key *)

Section RetryFacts.
Import Util Seifrng Rng Notions.
Context {sha3 : Sha3} {isaac : IsaacRandomPool} {eb : EccIsaac.EmptyBack}.

(** The calls of the loop: a run of failed attempts with multipliers
    counting up from the first, then either nothing more (the bound is
    reached) or one last call that succeeded or threw. *)
Lemma entropyLoop_shape (fileId : string) (key : option (list byte))
    (remaining : nat) (multiplier : Z) (prng : pool) :
  let '(exit, _, calls) := entropyLoop fileId key remaining multiplier prng in
  exists failures,
    Forall failed failures
    /\ map ic_multiplier calls = seqZ multiplier (Z.of_nat (length calls))
    /\ Forall (fun c => ic_fileId c = fileId /\ ic_key c = key) calls
    /\ ((calls = failures /\ length failures = remaining
         /\ exit = LoopLeft (multiplier + Z.of_nat remaining))
        \/ exists c,
             calls = failures ++ [c]
             /\ (length failures < remaining)%nat
             /\ ic_multiplier c = multiplier + Z.of_nat (length failures)
             /\ ((ic_result c = Gathered true
                  /\ exit = LoopLeft (ic_multiplier c))
                 \/ exists what,
                      ic_result c = HardwareError what
                      /\ exit = LoopCaught what)).
Proof.
  revert multiplier prng.
  induction remaining as [|remaining IH]; intros multiplier prng;
    cbn [entropyLoop].
  - exists []. repeat split; [constructor | constructor |].
    left. repeat split. f_equal. lia.
  - destruct (Initialize prng fileId multiplier key) as [result prng'] eqn:E.
    destruct result as [[|]|what].
    + exists []. split; [constructor|]. split; [reflexivity|].
      split; [repeat constructor|].
      right. eexists. split; [reflexivity|]. cbn.
      split; [lia|]. split; [lia|]. left. split; reflexivity.
    + specialize (IH (multiplier + 1) prng').
      destruct (entropyLoop fileId key remaining (multiplier + 1) prng')
        as [[exit prng''] calls].
      destruct IH as (failures & Hfail & Hmul & Hargs & Hcase).
      exists ({| ic_fileId := fileId; ic_multiplier := multiplier;
                 ic_key := key; ic_result := Gathered false |} :: failures).
      split; [constructor; [reflexivity | exact Hfail]|].
      split.
      { cbn [map length ic_multiplier]. rewrite Hmul.
        rewrite (seqZ_cons multiplier (Z.of_nat (S (length calls)))) by lia.
        do 2 f_equal; lia. }
      split; [constructor; [split; reflexivity | exact Hargs]|].
      destruct Hcase as [(-> & Hlen & ->) | (c & -> & Hlen & Hc & Hlast)].
      * left. cbn [length]. repeat split; [lia | f_equal; lia].
      * right. exists c. cbn [length app].
        split; [reflexivity|]. split; [lia|]. split; [lia|]. exact Hlast.
    + exists []. split; [constructor|]. split; [reflexivity|].
      split; [repeat constructor|].
      right. eexists. split; [reflexivity|]. cbn.
      split; [lia|]. split; [lia|]. right. exists what. split; reflexivity.
Qed.

(** [RNG::initialize] with a key buffer: the loop with the [digest] of the
    buffer, followed by the test of the multiplier. *)
Lemma initialize_shape (l_PRNG : pool) (info : list JsValue) :
  HasInstance (arg info 0) = true ->
  let '(result, _, calls) := initialize l_PRNG info in
  exists failures,
    Forall failed failures
    /\ map ic_multiplier calls = seqZ 0 (Z.of_nat (length calls))
    /\ Forall (fun c => ic_fileId c = fileIdOf (arg info 1)
                        /\ ic_key c = Some (keyDigest (BufferData (arg info 0))))
         calls
    /\ ((calls = failures /\ length failures = 6%nat
         /\ result = ThrowError not_enough_entropy)
        \/ exists c,
             calls = failures ++ [c]
             /\ (length failures < 6)%nat
             /\ ((ic_result c = Gathered true
                  /\ result = SetReturn (JsBoolean true))
                 \/ exists what,
                      ic_result c = HardwareError what
                      /\ result = ThrowError what)).
Proof.
  intros Hbuf. unfold initialize. rewrite Hbuf. cbn [negb].
  change (Z.to_nat (MAX_ENTROPY_GEN_MULTIPLIER - 0)) with 6%nat.
  pose proof (entropyLoop_shape (fileIdOf (arg info 1))
                (Some (keyDigest (BufferData (arg info 0)))) 6 0 l_PRNG) as Hs.
  destruct (entropyLoop _ _ 6 0 l_PRNG) as [[exit prng'] calls].
  destruct Hs as (failures & Hfail & Hmul & Hargs & Hcase).
  destruct Hcase as [(-> & Hlen & ->) | (c & -> & Hlen & Hc & Hlast)].
  - cbn. exists failures. repeat split; try assumption. left. repeat split.
    exact Hlen.
  - destruct Hlast as [(Hok & ->) | (what & Hwhat & ->)].
    + cbn [afterLoop]. rewrite Hc.
      destruct (Z.eqb_spec (0 + Z.of_nat (length failures))
                  MAX_ENTROPY_GEN_MULTIPLIER) as [E|E];
        [unfold MAX_ENTROPY_GEN_MULTIPLIER in E; lia|].
      exists failures. repeat split; try assumption.
      right. exists c. repeat split; try assumption. left. split; [exact Hok|].
      reflexivity.
    + cbn [afterLoop]. exists failures. repeat split; try assumption.
      right. exists c. repeat split; try assumption. right. exists what.
      split; [exact Hwhat | reflexivity].
Qed.

Lemma failed_not_success (c : InitializeCall) :
  failed c -> ic_result c <> Gathered true.
Proof. unfold failed. intros -> ?. discriminate. Qed.

(** *** The loop against the answers of the pool *)

Lemma Initialize_at (fileId : string) (key : option (list byte)) (p : pool)
    (k : nat) :
  Initialize (poolAfter fileId key p k) fileId (Z.of_nat k) key
  = (answer fileId key p k, poolAfter fileId key p (S k)).
Proof. unfold answer. cbn [poolAfter]. apply surjective_pairing. Qed.

Lemma callsUpTo_S (fileId : string) (key : option (list byte)) (p : pool)
    (n : nat) :
  callsUpTo fileId key p (S n)
  = callsUpTo fileId key p n
    ++ [mkInitializeCall fileId (Z.of_nat n) key (answer fileId key p n)].
Proof. unfold callsUpTo. rewrite seq_S, map_app. reflexivity. Qed.

(** While the pool answers that entropy is short the loop goes on: after
    [k] such answers it stands at multiplier [start + k] with the pool these
    calls left, and has made exactly these calls. *)
Lemma entropyLoop_after_failures (fileId : string) (key : option (list byte))
    (p : pool) (k remaining start : nat) :
  (forall j, (j < k)%nat -> answer fileId key p (start + j) = Gathered false) ->
  entropyLoop fileId key (k + remaining) (Z.of_nat start)
    (poolAfter fileId key p start)
  = let '(exit, p', calls) :=
      entropyLoop fileId key remaining (Z.of_nat (start + k))
        (poolAfter fileId key p (start + k)) in
    (exit, p',
     map (fun j => mkInitializeCall fileId (Z.of_nat j) key
                     (answer fileId key p j)) (seq start k) ++ calls).
Proof.
  revert start. induction k as [|k IH]; intros start Hfail.
  - cbn [Nat.add seq map app]. rewrite Nat.add_0_r.
    destruct (entropyLoop _ _ _ _ _) as [[exit p'] calls]. reflexivity.
  - cbn [Nat.add entropyLoop]. rewrite Initialize_at.
    pose proof (Hfail 0%nat ltac:(lia)) as H0. rewrite Nat.add_0_r in H0.
    rewrite H0.
    replace (Z.of_nat start + 1) with (Z.of_nat (S start)) by lia.
    rewrite (IH (S start)).
    + replace (S start + k)%nat with (start + S k)%nat by lia.
      destruct (entropyLoop _ _ _ _ _) as [[exit p'] calls].
      cbn [seq map app]. rewrite H0. reflexivity.
    + intros j Hj. replace (S start + j)%nat with (start + S j)%nat by lia.
      apply Hfail. lia.
Qed.

(** In every run the calls listed are calls made on the pool, each on the
    pool the call before left, with the answers the pool gave, and the pool
    handed back is the one the last of them left. *)
Lemma entropyLoop_log (fileId : string) (key : option (list byte))
    (p : pool) (remaining start : nat) :
  let '(_, p', calls) :=
    entropyLoop fileId key remaining (Z.of_nat start)
      (poolAfter fileId key p start) in
  calls = map (fun j => mkInitializeCall fileId (Z.of_nat j) key
                          (answer fileId key p j))
              (seq start (length calls))
  /\ p' = poolAfter fileId key p (start + length calls).
Proof.
  revert start. induction remaining as [|remaining IH]; intros start;
    cbn [entropyLoop].
  - cbn [length seq map]. rewrite Nat.add_0_r. split; reflexivity.
  - rewrite Initialize_at.
    destruct (answer fileId key p start) as [[|]|what] eqn:Hans.
    + cbn [length seq map]. rewrite Hans, Nat.add_1_r. split; reflexivity.
    + replace (Z.of_nat start + 1) with (Z.of_nat (S start)) by lia.
      specialize (IH (S start)).
      destruct (entropyLoop _ _ _ _ _) as [[exit p'] calls].
      destruct IH as [Hcalls Hp].
      cbn [length seq map]. rewrite Hans, <- Hcalls.
      split; [reflexivity|]. rewrite Hp. f_equal. lia.
    + cbn [length seq map]. rewrite Hans, Nat.add_1_r. split; reflexivity.
Qed.

(** The loop when attempt [k] is the first not to answer that entropy is
    short, and when no attempt within the bound is. *)
Lemma entropyLoop_stops_at (fileId : string) (key : option (list byte))
    (p : pool) (k remaining : nat) :
  (k < remaining)%nat ->
  (forall j, (j < k)%nat -> answer fileId key p j = Gathered false) ->
  answer fileId key p k <> Gathered false ->
  entropyLoop fileId key remaining 0 p
  = (match answer fileId key p k with
     | HardwareError what => LoopCaught what
     | Gathered _ => LoopLeft (Z.of_nat k)
     end,
     poolAfter fileId key p (S k), callsUpTo fileId key p (S k)).
Proof.
  intros Hk Hfail Hlast.
  replace remaining with (k + S (remaining - S k))%nat by lia.
  pose proof (entropyLoop_after_failures fileId key p k
                (S (remaining - S k)) 0 Hfail) as Hrun.
  cbn [Nat.add poolAfter] in Hrun. change (Z.of_nat 0) with 0 in Hrun.
  rewrite Hrun. cbn [entropyLoop]. rewrite Initialize_at, callsUpTo_S.
  destruct (answer fileId key p k) as [[|]|what]; try reflexivity.
  congruence.
Qed.

Lemma entropyLoop_exhausted (fileId : string) (key : option (list byte))
    (p : pool) (remaining : nat) :
  (forall j, (j < remaining)%nat -> answer fileId key p j = Gathered false) ->
  entropyLoop fileId key remaining 0 p
  = (LoopLeft (Z.of_nat remaining), poolAfter fileId key p remaining,
     callsUpTo fileId key p remaining).
Proof.
  intros Hfail.
  pose proof (entropyLoop_after_failures fileId key p remaining 0 0 Hfail)
    as Hrun.
  cbn [Nat.add poolAfter entropyLoop] in Hrun.
  rewrite Nat.add_0_r in Hrun. change (Z.of_nat 0) with 0 in Hrun.
  rewrite Hrun, app_nil_r. reflexivity.
Qed.

(** [RNG::initialize] with a key buffer, against the answers of the pool. *)
Lemma initialize_stops_at (l_PRNG : pool) (info : list JsValue) (k : nat) :
  HasInstance (arg info 0) = true ->
  let fileId := fileIdOf (arg info 1) in
  let key := Some (keyDigest (BufferData (arg info 0))) in
  (k < 6)%nat ->
  (forall j, (j < k)%nat -> answer fileId key l_PRNG j = Gathered false) ->
  answer fileId key l_PRNG k <> Gathered false ->
  initialize l_PRNG info
  = (match answer fileId key l_PRNG k with
     | HardwareError what => ThrowError what
     | Gathered _ => SetReturn (JsBoolean true)
     end,
     poolAfter fileId key l_PRNG (S k), callsUpTo fileId key l_PRNG (S k)).
Proof.
  intros Hbuf fileId key Hk Hfail Hlast.
  unfold initialize. rewrite Hbuf. cbn [negb].
  change (Z.to_nat (MAX_ENTROPY_GEN_MULTIPLIER - 0)) with 6%nat.
  fold fileId. fold key.
  rewrite (entropyLoop_stops_at fileId key l_PRNG k 6 Hk Hfail Hlast).
  destruct (answer fileId key l_PRNG k) as [enough|what]; cbn [afterLoop];
    [|reflexivity].
  destruct (Z.eqb_spec (Z.of_nat k) MAX_ENTROPY_GEN_MULTIPLIER) as [E|E];
    [unfold MAX_ENTROPY_GEN_MULTIPLIER in E; lia | reflexivity].
Qed.

(** [RNG::initialize], with or without a key buffer: the calls it lists and
    the pool it leaves are those of the pool's own run. *)
Lemma initialize_log (l_PRNG : pool) (info : list JsValue) :
  let fileId := fileIdOf (arg info 1) in
  let key := Some (keyDigest (BufferData (arg info 0))) in
  let '(_, l_PRNG', calls) := initialize l_PRNG info in
  calls = callsUpTo fileId key l_PRNG (length calls)
  /\ l_PRNG' = poolAfter fileId key l_PRNG (length calls).
Proof.
  cbn zeta. unfold initialize.
  destruct (negb (HasInstance (arg info 0))); [split; reflexivity|].
  change (Z.to_nat (MAX_ENTROPY_GEN_MULTIPLIER - 0)) with 6%nat.
  pose proof (entropyLoop_log (fileIdOf (arg info 1))
                (Some (keyDigest (BufferData (arg info 0)))) l_PRNG 6 0) as Hlog.
  cbn [poolAfter Nat.add] in Hlog. change (Z.of_nat 0) with 0 in Hlog.
  destruct (entropyLoop _ _ 6 0 l_PRNG) as [[exit p'] calls].
  destruct (afterLoop MAX_ENTROPY_GEN_MULTIPLIER exit); exact Hlog.
Qed.

Lemma initialize_exhausted (l_PRNG : pool) (info : list JsValue) :
  HasInstance (arg info 0) = true ->
  let fileId := fileIdOf (arg info 1) in
  let key := Some (keyDigest (BufferData (arg info 0))) in
  (forall j, (j < 6)%nat -> answer fileId key l_PRNG j = Gathered false) ->
  initialize l_PRNG info
  = (ThrowError not_enough_entropy, poolAfter fileId key l_PRNG 6,
     callsUpTo fileId key l_PRNG 6).
Proof.
  intros Hbuf fileId key Hfail.
  unfold initialize. rewrite Hbuf. cbn [negb].
  change (Z.to_nat (MAX_ENTROPY_GEN_MULTIPLIER - 0)) with 6%nat.
  fold fileId. fold key.
  rewrite (entropyLoop_exhausted fileId key l_PRNG 6 Hfail). reflexivity.
Qed.

(** C4: called with a key buffer, [initialize] calls [Initialize] on the
    pool with the effort multipliers 0, 1, 2, ..., each call on the pool the
    call before left.  If the pool answers that entropy is short to the
    attempts before [k] and that it suffices to attempt [k], for a [k] below
    6, the call returns [true] having made exactly the attempts [0 .. k], and
    leaves the pool as attempt [k] left it.  If the pool answers that
    entropy is short six times, the call throws the entropy error after
    exactly these six attempts.  In every run the multipliers count up from
    0, there are at most 6 calls, every call but the last reported failure,
    a call that reports success is the last one, and the calls listed are
    the calls made on the pool, with its answers. *)
Theorem C4_initialize_bounded_retries (l_PRNG : pool) (info : list JsValue) :
  HasInstance (arg info 0) = true ->
  let fileId := fileIdOf (arg info 1) in
  let key := Some (keyDigest (BufferData (arg info 0))) in
  (forall k, (k < 6)%nat ->
     (forall j, (j < k)%nat -> answer fileId key l_PRNG j = Gathered false) ->
     answer fileId key l_PRNG k = Gathered true ->
     initialize l_PRNG info
     = (SetReturn (JsBoolean true), poolAfter fileId key l_PRNG (S k),
        callsUpTo fileId key l_PRNG (S k)))
  /\ ((forall j, (j < 6)%nat -> answer fileId key l_PRNG j = Gathered false) ->
      initialize l_PRNG info
      = (ThrowError not_enough_entropy, poolAfter fileId key l_PRNG 6,
         callsUpTo fileId key l_PRNG 6))
  /\ (let '(result, l_PRNG', calls) := initialize l_PRNG info in
      calls = callsUpTo fileId key l_PRNG (length calls)
      /\ l_PRNG' = poolAfter fileId key l_PRNG (length calls)
      /\ map ic_multiplier calls = seqZ 0 (Z.of_nat (length calls))
      /\ (length calls <= 6)%nat
      /\ (forall i c, calls !! i = Some c -> (S i < length calls)%nat ->
            ic_result c = Gathered false)
      /\ (forall i c, calls !! i = Some c -> ic_result c = Gathered true ->
            S i = length calls /\ result = SetReturn (JsBoolean true))
      /\ (Forall (fun c => ic_result c = Gathered false) calls ->
            length calls = 6%nat /\ result = ThrowError not_enough_entropy)).
Proof.
  intros Hbuf fileId key.
  split.
  { intros k Hk Hfail Hok.
    pose proof (initialize_stops_at l_PRNG info k Hbuf Hk Hfail) as Hrun.
    fold fileId in Hrun. fold key in Hrun. rewrite Hok in Hrun.
    apply Hrun. discriminate. }
  split; [exact (initialize_exhausted l_PRNG info Hbuf)|].
  pose proof (initialize_shape l_PRNG info Hbuf) as Hs.
  pose proof (initialize_log l_PRNG info) as Hlog. cbn zeta in Hlog.
  fold fileId in Hlog. fold key in Hlog.
  destruct (initialize l_PRNG info) as [[result prng'] calls].
  destruct Hlog as [Hcalls Hpool].
  split; [exact Hcalls|]. split; [exact Hpool|]. clear Hcalls Hpool.
  destruct Hs as (failures & Hfail & Hmul & _ & Hcase).
  split; [exact Hmul|].
  destruct Hcase as [(-> & Hlen & ->) | (c & -> & Hlen & Hlast)].
  - split; [lia|]. split; [|split].
    + intros i c Hi _. exact (proj1 (Forall_lookup _ _) Hfail i c Hi).
    + intros i c Hi Hok.
      pose proof (proj1 (Forall_lookup _ _) Hfail i c Hi) as Hf.
      exfalso. exact (failed_not_success c Hf Hok).
    + intros _. split; [exact Hlen | reflexivity].
  - rewrite length_app. cbn [length]. split; [lia|]. split; [|split].
    + intros i c' Hi Hlt. rewrite lookup_app_l in Hi by lia.
      exact (proj1 (Forall_lookup _ _) Hfail i c' Hi).
    + intros i c' Hi Hok.
      destruct (decide (i < length failures)%nat) as [Hlt|Hge].
      * rewrite lookup_app_l in Hi by lia.
        pose proof (proj1 (Forall_lookup _ _) Hfail i c' Hi) as Hf.
        exfalso. exact (failed_not_success c' Hf Hok).
      * rewrite lookup_app_r in Hi by lia.
        destruct (i - length failures)%nat as [|k] eqn:Ek; [|discriminate].
        cbn in Hi. injection Hi as <-.
        split; [lia|].
        destruct Hlast as [(_ & ->) | (what & Hwhat & _)]; [reflexivity|].
        rewrite Hwhat in Hok. discriminate.
    + intros Hall. rewrite Forall_app, Forall_singleton in Hall.
      destruct Hall as [_ Hc].
      destruct Hlast as [(Hok & _) | (what & Hwhat & _)]; congruence.
Qed.


(** *** The key handed on *)

Lemma keyDigest_long (buffer : list byte) :
  (32 <= length buffer)%nat -> keyDigest buffer = buffer.
Proof.
  intros H. unfold keyDigest.
  destruct (Nat.ltb_spec (length buffer) 32); [lia | reflexivity].
Qed.

Lemma keyDigest_short (buffer : list byte) :
  (length buffer < 32)%nat ->
  keyDigest buffer
  = hashString (zeros DIGESTSIZE) (string_of_list_byte buffer).
Proof.
  intros H. unfold keyDigest.
  destruct (Nat.ltb_spec (length buffer) 32); [reflexivity | lia].
Qed.

(** C2, as the code has it: [isInitialized], [initialize] and the ECCISAAC
    constructor all hand on [keyDigest] of the key buffer.  For a buffer of
    32 bytes or more that is the whole buffer, unchanged and not cut (so the
    first 32 bytes when the buffer has exactly 32); for a shorter buffer it
    is the 32 byte vector holding the hash of the buffer. *)
Theorem C2_key_is_the_whole_buffer
    (buffer : list byte) (second : JsValue) (l_PRNG : pool) :
  let used := keyDigest buffer in
  snd (isInitialized [JsBuffer buffer; second])
  = Some (mkWorker (fileIdOf second) used)
  /\ Forall (fun c => ic_key c = Some used)
       (snd (initialize l_PRNG [JsBuffer buffer; second]))
  /\ (exists folder,
        EccIsaac.New [JsBuffer buffer; second]
        = inr (EccIsaac.mkECCISAAC used folder))
  /\ ((32 <= length buffer)%nat -> used = buffer)
  /\ (length buffer = 32%nat -> used = take 32 buffer)
  /\ ((length buffer < 32)%nat ->
        used = hashString (zeros DIGESTSIZE) (string_of_list_byte buffer)
        /\ length used = 32%nat
        /\ (length (SHA3_256 buffer) = 32%nat -> used = SHA3_256 buffer)).
Proof.
  cbn zeta. split; [reflexivity|]. split.
  { pose proof (initialize_shape l_PRNG [JsBuffer buffer; second] eq_refl) as Hs.
    destruct (initialize l_PRNG [JsBuffer buffer; second])
      as [[result prng'] calls].
    destruct Hs as (_ & _ & _ & Hargs & _). cbn [snd].
    eapply Forall_impl; [exact Hargs|]. intros c [_ Hk]. exact Hk. }
  split; [eexists; reflexivity|].
  split; [apply keyDigest_long|].
  split.
  { intros H32. rewrite keyDigest_long by lia.
    rewrite <- H32. symmetry. apply firstn_all. }
  intros Hshort. rewrite keyDigest_short by exact Hshort.
  split; [reflexivity|]. split.
  - rewrite hashString_length. apply zeros_length.
  - intros Hsha. apply hashString_digest. exact Hsha.
Qed.

End RetryFacts.

(** ** eccisaac.cc: loading and generating keys *)

Section KeyFileFacts.
Import Util Seifrng Rng EccIsaac Notions.
Context {sha3 : Sha3} {isaac : IsaacRandomPool} {fc : FileCryptopp}
        {ecies : Ecies}.

Lemma readFile_exists (disk : Disk) (path : string) (key data : list byte) :
  readFile disk path key = Some data -> fileExists disk path = true.
Proof.
  unfold readFile, fileExists. intros H.
  destruct (disk !! path) as [content|] eqn:E; [|discriminate].
  apply bool_decide_eq_true. eexists. reflexivity.
Qed.

Lemma LoadPrivateKey_cases (disk : Disk) (file : string) (key : list byte)
    (folderPath : string) :
  LoadPrivateKey disk file key folderPath
  = if fileExists disk (folderPath +:+ file) then
      match readFile disk (folderPath +:+ file) key with
      | None => Some (DECRYPTION_ERROR, None)
      | Some keyStr =>
          option_map (fun k => (SUCCESS, Some k)) (private_load keyStr)
      end
    else Some (FILE_NOT_FOUND, None).
Proof.
  unfold LoadPrivateKey.
  destruct (fileExists disk (folderPath +:+ file)); cbn [negb]; [|reflexivity].
  destruct (readFile _ _ _); [|reflexivity].
  destruct (private_load _); reflexivity.
Qed.

Lemma LoadPublicKey_cases (disk : Disk) (file : string) (key : list byte)
    (folderPath : string) :
  LoadPublicKey disk file key folderPath
  = if fileExists disk (folderPath +:+ file) then
      match readFile disk (folderPath +:+ file) key with
      | None => Some (DECRYPTION_ERROR, None)
      | Some keyStr =>
          option_map (fun k => (SUCCESS, Some k)) (public_load keyStr)
      end
    else Some (FILE_NOT_FOUND, None).
Proof.
  unfold LoadPublicKey.
  destruct (fileExists disk (folderPath +:+ file)); cbn [negb]; [|reflexivity].
  destruct (readFile _ _ _); [|reflexivity].
  destruct (public_load _); reflexivity.
Qed.

(** C6, as the code has it: [loadKeys] looks at the private key file first
    and at the public key file only once the private key is loaded, and the
    first failure decides.  It returns FILE_NOT_FOUND when the private file
    is absent, or the private key loads and the public file is absent;
    DECRYPTION_ERROR when the private file exists and does not decrypt, or
    the private key loads and the public file exists and does not decrypt;
    SUCCESS with both keys hex encoded when both files decrypt and load; and
    SUCCESS only when both files are present and decrypt under the key. *)
Theorem C6_loadKeys_first_failure_decides
    (disk : Disk) (key : list byte) (folderPath : string) :
  let priv := folderPath +:+ PRIV_KEY_FILE_NAME in
  let pub := folderPath +:+ PUB_KEY_FILE_NAME in
  (fileExists disk priv = false ->
     loadKeys disk key folderPath = Some (mkLoaded FILE_NOT_FOUND EmptyString EmptyString))
  /\ (fileExists disk priv = true -> readFile disk priv key = None ->
        loadKeys disk key folderPath = Some (mkLoaded DECRYPTION_ERROR EmptyString EmptyString))
  /\ (forall s d0,
        readFile disk priv key = Some s -> private_load s = Some d0 ->
        (fileExists disk pub = false ->
           loadKeys disk key folderPath = Some (mkLoaded FILE_NOT_FOUND EmptyString EmptyString))
        /\ (fileExists disk pub = true -> readFile disk pub key = None ->
              loadKeys disk key folderPath
              = Some (mkLoaded DECRYPTION_ERROR EmptyString EmptyString))
        /\ (forall t e0,
              readFile disk pub key = Some t -> public_load t = Some e0 ->
              loadKeys disk key folderPath
              = Some (mkLoaded SUCCESS (HexEncoder (public_save e0))
                               (HexEncoder (private_save d0)))))
  /\ (forall l,
        loadKeys disk key folderPath = Some l -> rc l = SUCCESS ->
        fileExists disk priv = true /\ fileExists disk pub = true
        /\ exists s t d0 e0,
             readFile disk priv key = Some s /\ private_load s = Some d0
             /\ readFile disk pub key = Some t /\ public_load t = Some e0
             /\ encodedPub l = HexEncoder (public_save e0)
             /\ encodedPriv l = HexEncoder (private_save d0)).
Proof.
  cbn zeta. unfold loadKeys.
  rewrite LoadPrivateKey_cases, LoadPublicKey_cases.
  split; [intros ->; reflexivity|].
  split; [intros -> ->; reflexivity|].
  split.
  - intros s d0 Hs Hd0.
    rewrite (readFile_exists _ _ _ _ Hs), Hs, Hd0. cbn [option_map].
    split; [intros ->; reflexivity|].
    split; [intros -> ->; reflexivity|].
    intros t e0 Ht He0.
    rewrite (readFile_exists _ _ _ _ Ht), Ht, He0. reflexivity.
  - intros l.
    destruct (fileExists disk (folderPath +:+ PRIV_KEY_FILE_NAME));
      [|intros [= <-]; discriminate].
    destruct (readFile disk (folderPath +:+ PRIV_KEY_FILE_NAME) key) as [s|];
      [|intros [= <-]; discriminate].
    destruct (private_load s) as [d0|] eqn:Hd0; [|discriminate].
    cbn [option_map].
    destruct (fileExists disk (folderPath +:+ PUB_KEY_FILE_NAME));
      [|intros [= <-]; discriminate].
    destruct (readFile disk (folderPath +:+ PUB_KEY_FILE_NAME) key) as [t|];
      [|intros [= <-]; discriminate].
    destruct (public_load t) as [e0|] eqn:He0; [|discriminate].
    cbn [option_map].
    intros [= <-] _. split; [reflexivity|]. split; [reflexivity|].
    exists s, t, d0, e0. repeat split; assumption.
Qed.

(** The loop of [generateKeys] follows the same protocol as the one of
    [RNG::initialize]: multipliers 0, 1, 2, ..., at most six calls, no key
    passed, and six failures end in the entropy error and [false].  The
    calls are made on a new pool, each on the pool the call before left,
    for the generator state file of the folder, and they are listed with
    the answers the pool gave. *)
Lemma generateKeys_retries (disk : Disk) (key : list byte) (folderPath : string) :
  let g := generateKeys disk key folderPath in
  map ic_multiplier (calls g) = seqZ 0 (Z.of_nat (length (calls g)))
  /\ (length (calls g) <= 6)%nat
  /\ Forall (fun c => ic_key c = None) (calls g)
  /\ (Forall failed (calls g) ->
        length (calls g) = 6%nat
        /\ ok g = false /\ error g = Some not_enough_entropy)
  /\ calls g
     = callsUpTo (folderPath +:+ RNG_STATE_FILE_NAME) None pool_new
         (length (calls g)).
Proof.
  cbn zeta. unfold generateKeys. change (Z.to_nat (6 - 0)) with 6%nat.
  pose proof (entropyLoop_shape (folderPath +:+ RNG_STATE_FILE_NAME) None 6 0
                pool_new) as Hs.
  pose proof (entropyLoop_log (folderPath +:+ RNG_STATE_FILE_NAME) None
                pool_new 6 0) as Hlog.
  cbn [poolAfter Nat.add] in Hlog. change (Z.of_nat 0) with 0 in Hlog.
  destruct (entropyLoop _ None 6 0 pool_new) as [[exit prng] attempts].
  destruct Hlog as [Hlog _]. fold (callsUpTo (folderPath +:+ RNG_STATE_FILE_NAME)
                                     None pool_new (length attempts)) in Hlog.
  destruct Hs as (failures & Hfail & Hmul & Hargs & Hcase).
  assert (Hlen : (length attempts <= 6)%nat).
  { destruct Hcase as [(-> & Hlen & _) | (c & -> & Hlen & _)];
      [lia | rewrite length_app; cbn [length]; lia]. }
  assert (Hkeys : Forall (fun c => ic_key c = None) attempts).
  { eapply Forall_impl; [exact Hargs|]. intros c [_ Hk]. exact Hk. }
  assert (Hall : Forall failed attempts ->
                 length attempts = 6%nat
                 /\ afterLoop 6 exit = Some not_enough_entropy).
  { intros Hall.
    destruct Hcase as [(-> & Hl & ->) | (c & -> & _ & _ & Hlast)].
    - split; [exact Hl | reflexivity].
    - rewrite Forall_app, Forall_singleton in Hall. destruct Hall as [_ Hc].
      unfold failed in Hc.
      destruct Hlast as [(Hok & _) | (what & Hwhat & _)]; congruence. }
  destruct (afterLoop 6 exit) as [what|] eqn:Hafter.
  - cbn [calls ok error]. repeat split; try assumption.
    + apply Hall. assumption.
    + destruct (Hall H) as [_ Hw]. exact Hw.
  - destruct (ecies_generate prng) as [d0 prng0]. cbn zeta.
    destruct (validateAndSave _ _ _ _ _ _) as [[?|] ?]; cbn [calls ok error];
      (repeat split; try assumption;
       destruct (Hall H) as [? Hw]; first [assumption | discriminate Hw]).
Qed.

(** When no attempt reported success the test after the loop fails. *)
Lemma afterLoop_without_success (fileId : string) (key : option (list byte))
    (prng : pool) :
  let '(exit, _, calls) := entropyLoop fileId key 6 0 prng in
  Forall (fun c => ic_result c <> Gathered true) calls ->
  exists what, afterLoop 6 exit = Some what.
Proof.
  pose proof (entropyLoop_shape fileId key 6 0 prng) as Hs.
  destruct (entropyLoop fileId key 6 0 prng) as [[exit prng'] calls].
  destruct Hs as (failures & _ & _ & _ & Hcase). intros Hnone.
  destruct Hcase as [(_ & _ & ->) | (c & -> & _ & _ & Hlast)].
  - eexists. reflexivity.
  - rewrite Forall_app, Forall_singleton in Hnone. destruct Hnone as [_ Hc].
    destruct Hlast as [(Hok & _) | (what & _ & ->)]; [contradiction|].
    eexists. reflexivity.
Qed.

(** C7: when no attempt of the entropy loop reports success (all six fail,
    or one throws a hardware error), or when the private or the public key
    generated does not pass validation, [generateKeys] returns [false], the
    disk is as it was, so neither key file is written, and the method
    returns no keys. *)
Theorem C7_generateKeys_failure_writes_nothing
    (disk : Disk) (key : list byte) (folderPath : string) :
  forall exit prng attempts d0 prng1,
    entropyLoop (folderPath +:+ RNG_STATE_FILE_NAME) None 6 0 pool_new
    = (exit, prng, attempts) ->
    ecies_generate prng = (d0, prng1) ->
    Forall (fun c => ic_result c <> Gathered true) attempts
    \/ fst (private_valid prng1 d0) = false
    \/ fst (public_valid (snd (private_valid prng1 d0)) (ecies_public d0))
       = false ->
    ok (generateKeys disk key folderPath) = false
    /\ disk_after (generateKeys disk key folderPath) = disk
    /\ returned (fst (generateKeys_method (mkECCISAAC key folderPath) disk))
       = JsUndefined.
Proof.
  intros exit prng attempts d0 prng1 Hloop Hgen Hcause.
  assert (Hg : ok (generateKeys disk key folderPath) = false
               /\ disk_after (generateKeys disk key folderPath) = disk).
  { unfold generateKeys.
    change (Z.to_nat (6 - 0)) with 6%nat.
    pose proof (afterLoop_without_success
                  (folderPath +:+ RNG_STATE_FILE_NAME) None pool_new) as Hnone.
    rewrite Hloop in Hnone |- *.
    destruct (afterLoop 6 exit) as [what|] eqn:Hafter; [split; reflexivity|].
    rewrite Hgen. unfold validateAndSave.
    destruct Hcause as [Hent | [Hpriv | Hpub]].
    - destruct (Hnone Hent) as [what Hwhat]. discriminate.
    - destruct (private_valid prng1 d0) as [valid prng2]. cbn in Hpriv.
      subst valid. split; reflexivity.
    - destruct (private_valid prng1 d0) as [[|] prng2]; [|split; reflexivity].
      cbn [snd negb] in *.
      destruct (public_valid prng2 (ecies_public d0)) as [valid prng3].
      cbn in Hpub. subst valid. split; reflexivity. }
  destruct Hg as [Hok Hdisk]. split; [exact Hok|]. split; [exact Hdisk|].
  unfold generateKeys_method. cbn [_key _folderPath]. rewrite Hok. reflexivity.
Qed.

End KeyFileFacts.

(** ** The statements on concrete inputs *)

Section Examples.
Import Util AesXor Seifrng Rng EccIsaac Notions Demo.

#[local] Existing Instance demo_sha3.
#[local] Existing Instance demo_pcg.
#[local] Existing Instance demo_gcm.
#[local] Existing Instance demo_shift.
#[local] Existing Instance demo_fc.
#[local] Existing Instance demo_back.

(** A message of eight bytes keeps every store inside [random]; it comes
    back from [decrypt] on another object built from the same seed, and not
    from the object that encrypted it, whose generator has moved on by the
    time [decrypt] draws. *)
Example eight_bytes_round_trip :
  let m := [x01; x02; x03; x04; x05; x06; x07; x08] in
  let '(r, obj') := encrypt (construct 5) [JsBuffer key_A; JsBuffer m] in
  snd (xorRandomData (construct 5) (zeros (length m)) m) = []
  /\ fst (decrypt (construct 5) [JsBuffer key_A; returned r])
     = SetReturn (JsBuffer m)
  /\ fst (decrypt obj' [JsBuffer key_A; returned r]) <> SetReturn (JsBuffer m).
Proof. vm_compute. repeat split. discriminate. Qed.

(** A tag that does not verify: [decrypt] throws and returns nothing. *)
Example decrypt_rejects_forged_block :
  decrypt (construct 5) [JsBuffer key_A; JsBuffer ["B"%byte; x01; x02]]
  = (ThrowError "HashVerificationFilter: message hash or MAC not valid",
     construct 5).
Proof. reflexivity. Qed.

(** C2 as the claim words it fails here: a key of 33 bytes reaches all
    three entry points whole, not cut to its first 32 bytes. *)
Lemma C2_key_of_33_bytes_is_not_cut :
  let buffer := repeat "A"%byte 33 in
  (32 <= length buffer)%nat
  /\ snd (isInitialized [JsBuffer buffer])
     <> Some (mkWorker "./" (take 32 buffer))
  /\ ~ Forall (fun c => ic_key c = Some (take 32 buffer))
         (snd (initialize (isaac := demo_pool never_enough) O
                 [JsBuffer buffer]))
  /\ EccIsaac.New [JsBuffer buffer] <> inr (mkECCISAAC (take 32 buffer) "./").
Proof.
  cbn zeta. split; [vm_compute; lia|].
  split; [vm_compute; discriminate|].
  split; [|vm_compute; discriminate].
  vm_compute. intros H. inversion H as [|c calls Hkey _]. discriminate Hkey.
Defined.

(** C4 on inputs: a pool that answers [true] from multiplier 3 on, and a
    pool that never does. *)
Lemma C4_success_at_multiplier_3 :
  HasInstance (arg [JsBuffer key_A] 0) = true
  /\ initialize (isaac := demo_pool (enough_from 3)) O [JsBuffer key_A]
     = (SetReturn (JsBoolean true), 4%nat,
        [mkInitializeCall "./" 0 (Some key_A) (Gathered false);
         mkInitializeCall "./" 1 (Some key_A) (Gathered false);
         mkInitializeCall "./" 2 (Some key_A) (Gathered false);
         mkInitializeCall "./" 3 (Some key_A) (Gathered true)])
  /\ initialize (isaac := demo_pool never_enough) O [JsBuffer key_A]
     = (ThrowError "Not enough entropy!", 6%nat,
        [mkInitializeCall "./" 0 (Some key_A) (Gathered false);
         mkInitializeCall "./" 1 (Some key_A) (Gathered false);
         mkInitializeCall "./" 2 (Some key_A) (Gathered false);
         mkInitializeCall "./" 3 (Some key_A) (Gathered false);
         mkInitializeCall "./" 4 (Some key_A) (Gathered false);
         mkInitializeCall "./" 5 (Some key_A) (Gathered false)]).
Proof.
  split; [reflexivity|]. split.
  - refine (proj1 (C4_initialize_bounded_retries
                     (isaac := demo_pool (enough_from 3))
                     O [JsBuffer key_A] eq_refl) 3%nat _ _ _).
    + lia.
    + intros j Hj. destruct j as [|[|[|j]]]; [reflexivity..|lia].
    + reflexivity.
  - refine (proj1 (proj2 (C4_initialize_bounded_retries
                            (isaac := demo_pool never_enough)
                            O [JsBuffer key_A] eq_refl)) _).
    intros j Hj. destruct j as [|[|[|[|[|[|j]]]]]]; [reflexivity..|lia].
Defined.

Example initialize_tries_0_to_3 :
  initialize (isaac := demo_pool (enough_from 3)) O [JsBuffer key_A]
  = (SetReturn (JsBoolean true), 4%nat,
     [mkInitializeCall "./" 0 (Some key_A) (Gathered false);
      mkInitializeCall "./" 1 (Some key_A) (Gathered false);
      mkInitializeCall "./" 2 (Some key_A) (Gathered false);
      mkInitializeCall "./" 3 (Some key_A) (Gathered true)]).
Proof. reflexivity. Qed.

Example initialize_gives_up_after_six :
  let '(result, _, calls) :=
    initialize (isaac := demo_pool never_enough) O [JsBuffer key_A] in
  result = ThrowError "Not enough entropy!"
  /\ map ic_multiplier calls = [0; 1; 2; 3; 4; 5].
Proof. split; reflexivity. Qed.

(** C6 as the claim words it fails here: a private key file that does not
    decrypt under the key and no public key file; a file is absent, yet the
    status is DECRYPTION_ERROR. *)
Lemma C6_absent_public_file_undecryptable_private :
  fileExists disk_private_only ("./" +:+ PUB_KEY_FILE_NAME) = false
  /\ rc <$> loadKeys (ecies := demo_ecies never_enough true true)
              disk_private_only key_B "./"
     = Some DECRYPTION_ERROR
  /\ rc <$> loadKeys (ecies := demo_ecies never_enough true true)
              disk_private_only key_B "./"
     <> Some FILE_NOT_FOUND.
Proof.
  split; [vm_compute; reflexivity|].
  split; [vm_compute; reflexivity|].
  vm_compute. discriminate.
Defined.

(** C7 on an input: the entropy loop succeeds at once, the public key
    fails validation. *)
Lemma C7_invalid_public_key_writes_nothing :
  ok (generateKeys (isaac := demo_pool (enough_from 0))
        (ecies := demo_ecies (enough_from 0) true false) ∅ key_A "./") = false
  /\ disk_after (generateKeys (isaac := demo_pool (enough_from 0))
        (ecies := demo_ecies (enough_from 0) true false) ∅ key_A "./") = ∅
  /\ returned (fst (generateKeys_method (isaac := demo_pool (enough_from 0))
        (ecies := demo_ecies (enough_from 0) true false)
        (mkECCISAAC key_A "./") ∅)) = JsUndefined.
Proof.
  apply (C7_generateKeys_failure_writes_nothing
           (isaac := demo_pool (enough_from 0))
           (ecies := demo_ecies (enough_from 0) true false) ∅ key_A "./"
           (LoopLeft 0) 1%nat
           [mkInitializeCall "./.ecies.rng" 0 None (Gathered true)]
           [x01; x02; x03] 2%nat).
  - reflexivity.
  - reflexivity.
  - right. right. reflexivity.
Defined.

(** With valid keys both files are written. *)
Example generateKeys_writes_both_files :
  let g := generateKeys (isaac := demo_pool (enough_from 0))
             (ecies := demo_ecies (enough_from 0) true true) ∅ key_A "./" in
  ok g = true
  /\ fileExists (disk_after g) ("./" +:+ PRIV_KEY_FILE_NAME) = true
  /\ fileExists (disk_after g) ("./" +:+ PUB_KEY_FILE_NAME) = true.
Proof. vm_compute. repeat split. Qed.


Example initialize_stops_at_the_error :
  initialize (isaac := demo_pool (breaks_at 2)) O [JsBuffer key_A]
  = (ThrowError "RDRAND failure", 3%nat,
     [mkInitializeCall "./" 0 (Some key_A) (Gathered false);
      mkInitializeCall "./" 1 (Some key_A) (Gathered false);
      mkInitializeCall "./" 2 (Some key_A) (HardwareError "RDRAND failure")]).
Proof. reflexivity. Qed.

(** C10 on an input: two seed buffers of different lengths with the same
    final eight bytes. *)
Lemma C10_same_tail_same_object :
  let tail := [x11; x22; x33; x44; x55; x66; x77; x88] in
  let b1 := x01 :: tail in
  let b2 := xff :: xee :: tail in
  last8 b1 = last8 b2
  /\ bytesToUInt64 b1 = big_endian b1 mod 2 ^ 64
  /\ bytesToUInt64 b1 = bytesToUInt64 b2
  /\ AesXor.New [JsBuffer b1] = inr {| _rng := pcg_seed 0x1122334455667788 |}
  /\ AesXor.New [JsBuffer b2] = inr {| _rng := pcg_seed 0x1122334455667788 |}
  /\ AesXor.New [JsBuffer b1] = AesXor.New [JsBuffer b2]
  /\ (forall o1 o2,
        AesXor.New [JsBuffer b1] = inr o1 -> AesXor.New [JsBuffer b2] = inr o2 ->
        (forall n, whiteningStream o1 n = whiteningStream o2 n)
        /\ (forall info, encrypt o1 info = encrypt o2 info
                         /\ decrypt o1 info = decrypt o2 info)).
Proof.
  cbn zeta. split; [reflexivity|].
  exact (C10_seed_from_last_8_bytes
           [x01; x11; x22; x33; x44; x55; x66; x77; x88]
           [xff; xee; x11; x22; x33; x44; x55; x66; x77; x88] eq_refl).
Defined.

(** C9 on inputs: a buffer of three bytes, and a string with a NUL in it. *)
Lemma C9_hash_of_three_bytes :
  let data := [x01; x02; x03] in
  let s := String "a" (String Ascii.zero (String "b" EmptyString)) in
  length (SHA3_256 data) = DIGESTSIZE
  /\ length (SHA3_256 (list_byte_of_string (c_str s))) = DIGESTSIZE
  /\ SEIFSHA3.hash [JsBuffer data]
     = SetReturn (JsBuffer (x01 :: x02 :: x03 :: zeros 29))
  /\ SEIFSHA3.hash [JsString s] = SetReturn (JsBuffer (x61 :: zeros 31))
  /\ thrown (SEIFSHA3.hash [JsBuffer data]) = None
  /\ thrown (SEIFSHA3.hash [JsString s]) = None
  /\ (forall digest,
        returned (SEIFSHA3.hash [JsBuffer data]) = JsBuffer digest
        \/ returned (SEIFSHA3.hash [JsString s]) = JsBuffer digest ->
        length digest = 32%nat).
Proof.
  cbn zeta. split; [reflexivity|]. split; [reflexivity|].
  exact (C9_hash_returns_32_bytes [x01; x02; x03]
           (String "a" (String Ascii.zero (String "b" EmptyString))) []
           eq_refl eq_refl).
Defined.

(** The empty buffer has a digest as well. *)
Example hash_of_the_empty_buffer :
  SEIFSHA3.hash [JsBuffer []] = SetReturn (JsBuffer (SHA3_256 []))
  /\ length (SHA3_256 []) = 32%nat.
Proof. split; reflexivity. Qed.

Example seed_of_nine_bytes :
  bytesToUInt64 [x01; x11; x22; x33; x44; x55; x66; x77; x88]
  = 0x1122334455667788.
Proof. reflexivity. Qed.

End Examples.

(** ** aesxor.cc: more on the stream and the seed *)

Section MoreStreamFacts.
Import AesXor Notions.
Context {pcg : Pcg} {gcm : AesGcm} {ish : IntShift}.

Lemma numRand_nat (n : nat) :
  Z.to_nat (numRand (Z.of_nat n)) = ((n + 7) / 8)%nat.
Proof.
  destruct (numRand_spec (Z.of_nat n) ltac:(lia)) as [-> _].
  rewrite <- (Nat2Z.id ((n + 7) / 8)). f_equal.
  rewrite Nat2Z.inj_div, Nat2Z.inj_add. reflexivity.
Qed.

(** [getRandom] stores whole words: eight bytes for each of the
    ceil(n / 8) words drawn, so never fewer than the [n] bytes asked for,
    fewer than [n + 8], and exactly [n] only when [n] is a multiple of 8. *)
Theorem getRandom_stores_whole_words (rng : pcg_state) (n : nat) :
  let stored := length (fst (getRandom rng (Z.of_nat n))) in
  stored = (8 * ((n + 7) / 8))%nat
  /\ (n <= stored < n + 8)%nat
  /\ (stored = n <-> (n mod 8 = 0)%nat).
Proof.
  cbn zeta. rewrite getRandom_length, numRand_nat.
  pose proof (Nat.div_mod_eq (n + 7) 8) as Hd.
  pose proof (Nat.mod_upper_bound (n + 7) 8 ltac:(lia)) as Hm.
  pose proof (Nat.div_mod_eq n 8) as Hd'.
  pose proof (Nat.mod_upper_bound n 8 ltac:(lia)) as Hm'.
  split; [reflexivity|]. split; [lia|]. split; intros H; lia.
Qed.

Lemma fillRandomVector_app (a b : nat) (rng : pcg_state) :
  fillRandomVector (a + b) rng
  = (fst (fillRandomVector a rng)
       ++ fst (fillRandomVector b (snd (fillRandomVector a rng))),
     snd (fillRandomVector b (snd (fillRandomVector a rng)))).
Proof.
  revert rng. induction a as [|a IH]; intros rng.
  - cbn. destruct (fillRandomVector b rng). reflexivity.
  - cbn [Nat.add fillRandomVector]. destruct (pcg_next rng) as [x rng1].
    rewrite IH. destruct (fillRandomVector a rng1) as [xs rng2]. reflexivity.
Qed.

Lemma uInt64toBytes_app (l1 l2 : list Z) :
  uInt64toBytes (l1 ++ l2) = uInt64toBytes l1 ++ uInt64toBytes l2.
Proof.
  induction l1 as [|w l1 IH]; [reflexivity|].
  cbn [app uInt64toBytes]. rewrite IH, app_assoc. reflexivity.
Qed.

(** From one state of the generator, the stream for a shorter message is
    the beginning of the stream for a longer one. *)
Theorem whiteningStream_prefix (obj : AESXOR256) (n n' : nat) :
  (n <= n')%nat ->
  whiteningStream obj n = take n (whiteningStream obj n').
Proof.
  intros Hle. unfold whiteningStream, getRandom.
  rewrite !numRand_nat.
  assert (Hdiv : ((n + 7) / 8 <= (n' + 7) / 8)%nat)
    by (apply Nat.Div0.div_le_mono; lia).
  replace ((n' + 7) / 8)%nat
    with ((n + 7) / 8 + ((n' + 7) / 8 - (n + 7) / 8))%nat by lia.
  rewrite fillRandomVector_app.
  pose proof (fillRandomVector_length ((n + 7) / 8) (_rng obj)) as Hlen.
  destruct (fillRandomVector ((n + 7) / 8) (_rng obj)) as [ws rng1].
  cbn [fst snd] in *.
  destruct (fillRandomVector _ rng1) as [ws' rng2].
  cbn [fst snd] in *.
  rewrite take_take, Nat.min_l by lia.
  rewrite uInt64toBytes_app, take_app_le; [reflexivity|].
  rewrite uInt64toBytes_length, Hlen.
  pose proof (Nat.div_mod_eq (n + 7) 8).
  pose proof (Nat.mod_upper_bound (n + 7) 8 ltac:(lia)). lia.
Qed.

(** *** Wide shifts that wrap *)

Lemma masked_zero (w mask k : Z) :
  0 < mask -> Z.log2 mask < k ->
  byte_of_Z (Z.shiftr (Z.land w mask) k) = x00.
Proof.
  intros Hpos Hlog.
  assert (Z.shiftr (Z.land w mask) k = 0) as ->; [|reflexivity].
  pose proof (Z.log2_nonneg mask).
  apply Z.bits_inj'. intros n Hn.
  rewrite Z.shiftr_spec, Z.land_spec, (Z.bits_above_log2 mask (n + k)) by lia.
  rewrite andb_false_r, Z.bits_0. reflexivity.
Qed.

(** On a build whose [int] shift uses the count modulo 32, as the x86
    [shl] instruction does, every word is stored with its four low bytes,
    then three zero bytes, then its top byte: bytes 4 to 6 of each word never
    reach the stream. *)
Theorem wrapping_shift_drops_bytes_4_to_6 (w : Z) :
  (forall n, 32 <= n -> shl_overflow 255 n = to_i32 (Z.shiftl 255 (n mod 32))) ->
  map (word_byte w) (seqZ 0 8)
  = [little_endian_byte w 0; little_endian_byte w 1; little_endian_byte w 2;
     little_endian_byte w 3; x00; x00; x00; little_endian_byte w 7].
Proof.
  intros Hwrap.
  change (seqZ 0 8) with [0; 1; 2; 3; 4; 5; 6; 7]. cbn [map].
  rewrite !word_byte_low by lia.
  do 4 f_equal.
  unfold word_byte, int_shl. cbn [Z.mul Z.ltb Z.compare Pos.mul Pos.compare
                                  Pos.compare_cont].
  rewrite !Hwrap by lia.
  f_equal; [apply masked_zero; [reflexivity | reflexivity]|].
  f_equal; [apply masked_zero; [reflexivity | reflexivity]|].
  f_equal; [apply masked_zero; [reflexivity | reflexivity]|].
  f_equal. unfold little_endian_byte. apply masked_byte; [lia|].
  intros n Hn.
  assert (H8 : n = 0 \/ n = 1 \/ n = 2 \/ n = 3 \/ n = 4 \/ n = 5 \/ n = 6
               \/ n = 7) by lia.
  destruct H8 as [-> | [-> | [-> | [-> | [-> | [-> | [-> | ->]]]]]]];
    reflexivity.
Qed.

End MoreStreamFacts.

(** ** aesxor.cc: more on encrypt, decrypt and the seed *)

Section MoreCipherFacts.
Import AesXor Notions.
Context {pcg : Pcg} {gcm : AesGcm} {ish : IntShift}.

Lemma Z_of_byte_inj (a b : byte) : Z_of_byte a = Z_of_byte b -> a = b.
Proof.
  intros H. rewrite <- (byte_of_Z_of_byte a), <- (byte_of_Z_of_byte b), H.
  reflexivity.
Qed.

Lemma Z_of_byte_xor (a b : byte) :
  Z_of_byte (byte_xor a b) = Z.lxor (Z_of_byte a) (Z_of_byte b).
Proof.
  unfold byte_xor. rewrite Z_of_byte_of_Z.
  apply Z.mod_small. apply lxor_bytes_range.
Qed.

(** Only the byte that went in takes the whitening out again. *)
Lemma byte_xor_cancel (a r1 r2 : byte) :
  byte_xor (byte_xor a r1) r2 = a -> r1 = r2.
Proof.
  intros H. apply (f_equal Z_of_byte) in H. rewrite !Z_of_byte_xor in H.
  apply Z_of_byte_inj. apply Z.lxor_eq.
  apply (f_equal (Z.lxor (Z_of_byte a))) in H.
  rewrite Z.lxor_nilpotent in H.
  rewrite <- H.
  rewrite <- !Z.lxor_assoc, Z.lxor_nilpotent, Z.lxor_0_l. reflexivity.
Qed.

Lemma zip_xor_cancel (m r1 r2 : list byte) :
  length r1 = length m -> length r2 = length m ->
  zip_with byte_xor (zip_with byte_xor m r1) r2 = m -> r1 = r2.
Proof.
  revert r1 r2. induction m as [|a m IH]; intros [|b1 r1] [|b2 r2] H1 H2 H;
    cbn in *; try reflexivity; try lia.
  injection H as Hb Hm. f_equal.
  - exact (byte_xor_cancel a b1 b2 Hb).
  - apply IH; [lia | lia | exact Hm].
Qed.

(** For a message [m] whose size is a multiple of eight, so that no
    whitening step stores past its [random] vector, and a block that
    [encrypt] returned for [m] under a key for which AES-GCM decrypts its
    own output: [decrypt] on an object returns [m] exactly when that
    object's stream equals the stream [encrypt] used. *)
Theorem decrypt_recovers_iff_streams_agree
    (enc dec : AESXOR256) (k m c : list byte) (enc' : AESXOR256) :
  length k = 32%nat ->
  (length m mod 8 = 0)%nat ->
  encrypt enc [JsBuffer k; JsBuffer m] = (SetReturn (JsBuffer c), enc') ->
  (forall t, encryptBlock k t = inr c -> decryptBlock k c = inr t) ->
  snd (xorRandomData enc (zeros (length m)) m) = []
  /\ (forall temp, decryptBlock k c = inr temp ->
        snd (xorRandomData dec (zeros (length temp)) temp) = [])
  /\ (fst (decrypt dec [JsBuffer k; JsBuffer c]) = SetReturn (JsBuffer m)
      <-> whiteningStream dec (length m) = whiteningStream enc (length m)).
Proof.
  intros Hk Hmul Henc Haead.
  rewrite encrypt_buffers, Hk in Henc. cbn [Nat.eqb negb] in Henc.
  set (temp := zip_with byte_xor m (whiteningStream enc (length m))) in *.
  assert (Hdec : decryptBlock k c = inr temp).
  { apply Haead. destruct (encryptBlock k temp) as [e|c0]; [discriminate|].
    injection Henc as -> _. reflexivity. }
  assert (Hlen : length temp = length m).
  { apply zip_xor_length. rewrite whiteningStream_length. lia. }
  split; [apply xorRandomData_in_bounds; exact Hmul|].
  split.
  { intros temp' Htemp'. rewrite Hdec in Htemp'. injection Htemp' as <-.
    apply xorRandomData_in_bounds. rewrite Hlen. exact Hmul. }
  rewrite decrypt_buffers, Hk, Hdec. cbn [Nat.eqb negb fst].
  rewrite Hlen. split.
  - intros [= H]. symmetry.
    apply (zip_xor_cancel m); [apply whiteningStream_length ..| exact H].
  - intros ->. do 2 f_equal. apply zip_xor_involutive.
    rewrite whiteningStream_length. lia.
Qed.

(** Whatever its arguments, a [decrypt] that throws leaves the object as it
    was and returns nothing: the generator moves only when a plaintext is
    returned. *)
Theorem decrypt_that_throws_changes_nothing
    (obj : AESXOR256) (info : list JsValue) (what : string) :
  thrown (fst (decrypt obj info)) = Some what ->
  snd (decrypt obj info) = obj
  /\ returned (fst (decrypt obj info)) = JsUndefined.
Proof.
  unfold decrypt.
  destruct (_ || _ || _); [intros _; split; reflexivity|].
  destruct (negb _); [intros _; split; reflexivity|].
  destruct (decryptBlock _ _) as [e|temp]; [intros _; split; reflexivity|].
  destruct (xorRandomData _ _ _) as [[messageData obj'] past]. cbn.
  discriminate.
Qed.

(** With a 32 byte key [encrypt] draws ceil(n / 8) words for a message of
    [n] bytes before AES-GCM runs, so the generator has moved by that many
    words afterwards, also when AES-GCM throws. *)
Theorem encrypt_consumes_the_stream
    (obj : AESXOR256) (key message : list byte) :
  length key = 32%nat ->
  snd (encrypt obj [JsBuffer key; JsBuffer message])
  = {| _rng := snd (fillRandomVector ((length message + 7) / 8) (_rng obj)) |}.
Proof.
  intros Hk. rewrite encrypt_advances by exact Hk.
  unfold advanced, getRandom. rewrite numRand_nat.
  destruct (fillRandomVector _ _). reflexivity.
Qed.

(** *** The seed of short buffers *)

Lemma big_endian_inj (l1 l2 : list byte) :
  length l1 = length l2 -> big_endian l1 = big_endian l2 -> l1 = l2.
Proof.
  revert l2. induction l1 as [|a l1 IH]; intros [|b l2] Hlen H;
    cbn [length] in Hlen; try reflexivity; try lia.
  cbn [big_endian] in H.
  assert (Hl : length l1 = length l2) by lia. rewrite Hl in H.
  pose proof (big_endian_range l1) as R1. rewrite Hl in R1.
  pose proof (big_endian_range l2) as R2.
  pose proof (Z_of_byte_range a). pose proof (Z_of_byte_range b).
  set (P := 256 ^ Z.of_nat (length l2)) in *.
  assert (Hab : Z_of_byte a = Z_of_byte b).
  { destruct (Z.lt_trichotomy (Z_of_byte a) (Z_of_byte b)) as [Hlt|[Heq|Hgt]];
      [exfalso; nia | exact Heq | exfalso; nia]. }
  assert (Hrest : big_endian l1 = big_endian l2) by (rewrite Hab in H; lia).
  f_equal; [apply Z_of_byte_inj; exact Hab | apply IH; assumption].
Qed.

(** A seed buffer of at most eight bytes gives its big-endian value as the
    seed, without wrap-around, and two such buffers of the same length give
    the same seed only when they are equal. *)
Theorem seed_of_short_buffers_is_exact (b1 b2 : list byte) :
  (length b1 <= 8)%nat -> length b2 = length b1 ->
  bytesToUInt64 b1 = big_endian b1
  /\ (bytesToUInt64 b1 = bytesToUInt64 b2 -> b1 = b2).
Proof.
  intros H8 Hlen.
  assert (Hexact : forall b, (length b <= 8)%nat ->
                             bytesToUInt64 b = big_endian b).
  { intros b Hb. rewrite bytesToUInt64_big_endian.
    pose proof (big_endian_range b) as R.
    apply Z.mod_small. split; [lia|].
    eapply Z.lt_le_trans; [apply R|].
    change (2 ^ 64) with (256 ^ 8). apply Z.pow_le_mono_r; lia. }
  split; [apply Hexact; exact H8|].
  rewrite !Hexact by lia. intros H. apply big_endian_inj; [lia | exact H].
Qed.

End MoreCipherFacts.

(** ** seifsha3.cc and the key digest *)

Section MoreHashFacts.
Import Util SEIFSHA3 Rng MoreNotions.
Context {sha3 : Sha3} {isaac : Seifrng.IsaacRandomPool}.

Lemma c_str_cut (s t : string) :
  c_str (s +:+ String Ascii.zero t) = c_str s.
Proof.
  induction s as [|a s IH]; [reflexivity|].
  simpl. rewrite IH. reflexivity.
Qed.

Lemma c_str_nul_free (s : string) : NulFree s -> c_str s = s.
Proof.
  unfold NulFree. induction s as [|a s IH]; [reflexivity|].
  cbn [list_ascii_of_string c_str]. intros H.
  apply Forall_cons in H as [Ha Hs].
  destruct (Ascii.eqb_spec a Ascii.zero) as [E|_]; [contradiction|].
  rewrite IH by exact Hs. reflexivity.
Qed.

(** A string argument is hashed only up to its first NUL character:
    whatever follows a NUL does not reach the digest. *)
Theorem hash_ignores_a_string_after_NUL (s t : string) (rest : list JsValue) :
  hash (JsString (s +:+ String Ascii.zero t) :: rest)
  = hash (JsString s :: rest).
Proof.
  rewrite !hash_string_argument, c_str_cut. reflexivity.
Qed.

(** A string without NUL characters has the digest of the buffer holding
    its bytes. *)
Theorem hash_of_string_is_hash_of_its_bytes (s : string) :
  NulFree s ->
  hash [JsString s] = hash [JsBuffer (list_byte_of_string s)].
Proof.
  intros H. rewrite hash_string_argument, c_str_nul_free by exact H.
  reflexivity.
Qed.

(** The key that [isInitialized], [initialize] and the ECCISAAC constructor
    derive from a key buffer shorter than 32 bytes is the buffer that
    [SEIFSHA3::hash] returns for it. *)
Theorem short_key_digest_is_hash (buffer : list byte) :
  (length buffer < 32)%nat ->
  hash [JsBuffer buffer] = SetReturn (JsBuffer (keyDigest buffer)).
Proof.
  intros H. rewrite keyDigest_short by exact H.
  unfold hash, hashString, hashBuffer.
  cbn [arg nth IsUndefined HasInstance negb BufferData].
  rewrite list_byte_of_string_of_list_byte. reflexivity.
Qed.

End MoreHashFacts.

(** ** rng.cc: more on initialize *)

Section MoreRetryFacts.
Import Util Seifrng Rng Notions.
Context {sha3 : Sha3} {isaac : IsaacRandomPool}.

Lemma initialize_without_buffer (l_PRNG : pool) (info : list JsValue) :
  HasInstance (arg info 0) = false ->
  initialize l_PRNG info
  = (ThrowError "Incorrect Arguments. File Identifier buffer not provided",
     l_PRNG, []).
Proof. intros H. unfold initialize. rewrite H. reflexivity. Qed.

(** Every call of [Initialize] made by one [initialize] carries the same
    file id, "./" when there is no second argument and otherwise the
    characters of the second argument before its first NUL, and the same
    key, the digest of the key buffer.  So two second arguments that differ
    only after a NUL name the same file.  The calls listed are the calls
    made on the pool with this file id and this key. *)
Theorem initialize_calls_share_file_and_key
    (l_PRNG : pool) (info : list JsValue) :
  Forall (fun c =>
            ic_fileId c
            = (if IsUndefined (arg info 1) then "./"%string
               else c_str (Utf8Value (arg info 1)))
            /\ ic_key c = Some (keyDigest (BufferData (arg info 0))))
    (snd (initialize l_PRNG info))
  /\ (forall s t,
        arg info 1 = JsString (s +:+ String Ascii.zero t) ->
        Forall (fun c => ic_fileId c = c_str s) (snd (initialize l_PRNG info)))
  /\ snd (initialize l_PRNG info)
     = callsUpTo
         (if IsUndefined (arg info 1) then "./"%string
          else c_str (Utf8Value (arg info 1)))
         (Some (keyDigest (BufferData (arg info 0)))) l_PRNG
         (length (snd (initialize l_PRNG info))).
Proof.
  assert (Hall : Forall (fun c =>
            ic_fileId c
            = (if IsUndefined (arg info 1) then "./"%string
               else c_str (Utf8Value (arg info 1)))
            /\ ic_key c = Some (keyDigest (BufferData (arg info 0))))
    (snd (initialize l_PRNG info))).
  { destruct (HasInstance (arg info 0)) eqn:Hbuf.
    - pose proof (initialize_shape l_PRNG info Hbuf) as Hs.
      destruct (initialize l_PRNG info) as [[result prng'] calls].
      destruct Hs as (_ & _ & _ & Hargs & _). cbn [snd].
      eapply Forall_impl; [exact Hargs|]. intros c [Hf Hk].
      split; [|exact Hk]. rewrite Hf. unfold fileIdOf.
      destruct (IsUndefined (arg info 1)); reflexivity.
    - rewrite initialize_without_buffer by exact Hbuf. constructor. }
  split; [exact Hall|]. split.
  - intros s t Harg. eapply Forall_impl; [exact Hall|].
    intros c [Hf _]. rewrite Hf, Harg. cbn [IsUndefined Utf8Value].
    apply c_str_cut.
  - pose proof (initialize_log l_PRNG info) as Hlog. cbn zeta in Hlog.
    unfold fileIdOf in Hlog.
    destruct (initialize l_PRNG info) as [[result prng'] calls]. cbn [snd].
    destruct Hlog as [Hlog _].
    destruct (IsUndefined (arg info 1)); exact Hlog.
Qed.

(** [initialize] returns [true] exactly when one of its attempts reported
    enough entropy, and throws exactly when none did; without a key buffer
    it throws without calling the pool at all.  The attempts are the calls
    made on the pool, each on the pool the call before left, with the
    answers the pool gave, and the pool is left as the last of them left
    it. *)
Theorem initialize_succeeds_iff_an_attempt_did
    (l_PRNG : pool) (info : list JsValue) :
  let '(result, l_PRNG', calls) := initialize l_PRNG info in
  (result = SetReturn (JsBoolean true)
   <-> Exists (fun c => ic_result c = Gathered true) calls)
  /\ (thrown result <> None
      <-> ~ Exists (fun c => ic_result c = Gathered true) calls)
  /\ (HasInstance (arg info 0) = false -> calls = [] /\ l_PRNG' = l_PRNG)
  /\ calls
     = callsUpTo (fileIdOf (arg info 1))
         (Some (keyDigest (BufferData (arg info 0)))) l_PRNG (length calls)
  /\ l_PRNG'
     = poolAfter (fileIdOf (arg info 1))
         (Some (keyDigest (BufferData (arg info 0)))) l_PRNG (length calls).
Proof.
  pose proof (initialize_log l_PRNG info) as Hlog. cbn zeta in Hlog.
  destruct (HasInstance (arg info 0)) eqn:Hbuf.
  - pose proof (initialize_shape l_PRNG info Hbuf) as Hs.
    destruct (initialize l_PRNG info) as [[result prng'] calls].
    destruct Hs as (failures & Hfail & _ & _ & Hcase).
    assert (Hnone : ~ Exists (fun c => ic_result c = Gathered true) failures).
    { rewrite Exists_exists. intros (c & Hin & Hok).
      rewrite Forall_forall in Hfail.
      exact (failed_not_success c (Hfail c Hin) Hok). }
    split; [|split; [|split; [discriminate | exact Hlog]]].
    + destruct Hcase as [(-> & _ & ->) | (c & -> & _ & Hlast)].
      * split; [discriminate | intros H; contradiction].
      * rewrite Exists_app, Exists_cons, Exists_nil.
        destruct Hlast as [(Hok & ->) | (what & Hwhat & ->)].
        -- split; [intros _; right; left; exact Hok | reflexivity].
        -- split; [discriminate|].
           intros [H | [H | []]]; [contradiction | congruence].
    + destruct Hcase as [(-> & _ & ->) | (c & -> & _ & Hlast)].
      * split; [intros _; exact Hnone | intros _; discriminate].
      * rewrite Exists_app, Exists_cons, Exists_nil.
        destruct Hlast as [(Hok & ->) | (what & Hwhat & ->)].
        -- split; [intros H; exfalso; apply H; reflexivity|].
           intros H. exfalso. apply H. right. left. exact Hok.
        -- split; [|intros _; discriminate].
           intros _ [H | [H | []]]; [contradiction | congruence].
  - rewrite initialize_without_buffer by exact Hbuf.
    split; [|split; [|split]].
    + split; [discriminate | intros H; inversion H].
    + split; [intros _ H; inversion H | intros _; discriminate].
    + intros _. split; reflexivity.
    + split; reflexivity.
Qed.

End MoreRetryFacts.

(** ** eccisaac.cc: what generateKeys leaves on the disk *)

Section MoreKeyFileFacts.
Import Util Seifrng Rng EccIsaac Notions MoreNotions.
Context {sha3 : Sha3} {isaac : IsaacRandomPool} {fc : FileCryptopp}
        {ecies : Ecies}.

Lemma append_inj (s a b : string) : s +:+ a = s +:+ b -> a = b.
Proof.
  induction s as [|c s IH]; [intros H; exact H|].
  simpl. intros [= H]. exact (IH H).
Qed.

Lemma key_paths_differ (folderPath : string) :
  privatePath folderPath <> publicPath folderPath.
Proof.
  unfold privatePath, publicPath. intros H. apply append_inj in H.
  discriminate H.
Qed.

(** [generateKeys], step by step, for a given run of its collaborators. *)
Lemma generateKeys_run (disk : Disk) (key : list byte) (folderPath : string)
    exit prng attempts d0 prng1 vp prng2 vq prng3 :
  entropyLoop (folderPath +:+ RNG_STATE_FILE_NAME) None 6 0 pool_new
  = (exit, prng, attempts) ->
  ecies_generate prng = (d0, prng1) ->
  private_valid prng1 d0 = (vp, prng2) ->
  public_valid prng2 (ecies_public d0) = (vq, prng3) ->
  generateKeys disk key folderPath
  = match afterLoop 6 exit with
    | Some what =>
        mkGenerated false (Some what) EmptyString EmptyString disk attempts
    | None =>
        let disk1 :=
          <[privatePath folderPath := fc_encrypt key (private_save d0)]> disk in
        let disk2 :=
          <[publicPath folderPath
            := fc_encrypt key (public_save (ecies_public d0))]> disk1 in
        if negb (vp && vq) then
          mkGenerated false None EmptyString EmptyString disk attempts
        else if negb (fc_writable (privatePath folderPath)) then
          mkGenerated false None EmptyString EmptyString disk attempts
        else if negb (fc_writable (publicPath folderPath)) then
          mkGenerated false None EmptyString EmptyString disk1 attempts
        else
          mkGenerated true None (HexEncoder (public_save (ecies_public d0)))
            (HexEncoder (private_save d0)) disk2 attempts
    end.
Proof.
  intros Hloop Hgen Hvp Hvq. unfold generateKeys.
  change (Z.to_nat (6 - 0)) with 6%nat. rewrite Hloop.
  destruct (afterLoop 6 exit); [reflexivity|].
  rewrite Hgen. unfold validateAndSave. rewrite Hvp.
  destruct vp; cbn [negb andb]; [|reflexivity].
  rewrite Hvq. destruct vq; cbn [negb]; [|reflexivity].
  unfold SavePrivateKey, SavePublicKey, writeFile, privatePath, publicPath.
  destruct (fc_writable (folderPath +:+ PRIV_KEY_FILE_NAME)); cbn [negb];
    [|reflexivity].
  destruct (fc_writable (folderPath +:+ PUB_KEY_FILE_NAME)); reflexivity.
Qed.

(** Every run has such collaborators' answers. *)
Lemma generateKeys_cases (disk : Disk) (key : list byte) (folderPath : string) :
  exists exit attempts d0 vp vq,
    generateKeys disk key folderPath
    = match afterLoop 6 exit with
      | Some what =>
          mkGenerated false (Some what) EmptyString EmptyString disk attempts
      | None =>
          let disk1 :=
            <[privatePath folderPath := fc_encrypt key (private_save d0)]> disk
          in
          let disk2 :=
            <[publicPath folderPath
              := fc_encrypt key (public_save (ecies_public d0))]> disk1 in
          if negb (vp && vq) then
            mkGenerated false None EmptyString EmptyString disk attempts
          else if negb (fc_writable (privatePath folderPath)) then
            mkGenerated false None EmptyString EmptyString disk attempts
          else if negb (fc_writable (publicPath folderPath)) then
            mkGenerated false None EmptyString EmptyString disk1 attempts
          else
            mkGenerated true None (HexEncoder (public_save (ecies_public d0)))
              (HexEncoder (private_save d0)) disk2 attempts
      end.
Proof.
  destruct (entropyLoop (folderPath +:+ RNG_STATE_FILE_NAME) None 6 0 pool_new)
    as [[exit prng] attempts] eqn:Hloop.
  destruct (ecies_generate prng) as [d0 prng1] eqn:Hgen.
  destruct (private_valid prng1 d0) as [vp prng2] eqn:Hvp.
  destruct (public_valid prng2 (ecies_public d0)) as [vq prng3] eqn:Hvq.
  exists exit, attempts, d0, vp, vq.
  exact (generateKeys_run disk key folderPath _ _ _ _ _ _ _ _ _
           Hloop Hgen Hvp Hvq).
Qed.

(** What a [true] from [generateKeys] tells about its run. *)
Lemma generateKeys_success_inv
    (disk : Disk) (key : list byte) (folderPath : string) :
  ok (generateKeys disk key folderPath) = true ->
  exists d0,
    genPriv (generateKeys disk key folderPath) = HexEncoder (private_save d0)
    /\ genPub (generateKeys disk key folderPath)
       = HexEncoder (public_save (ecies_public d0))
    /\ disk_after (generateKeys disk key folderPath)
       = <[publicPath folderPath
           := fc_encrypt key (public_save (ecies_public d0))]>
           (<[privatePath folderPath
              := fc_encrypt key (private_save d0)]> disk)
    /\ error (generateKeys disk key folderPath) = None.
Proof.
  destruct (generateKeys_cases disk key folderPath)
    as (exit & attempts & d0 & vp & vq & ->).
  destruct (afterLoop 6 exit); [discriminate|]. cbn zeta.
  destruct (negb (vp && vq)); [discriminate|].
  destruct (negb (fc_writable (privatePath folderPath))); [discriminate|].
  destruct (negb (fc_writable (publicPath folderPath))); [discriminate|].
  intros _. exists d0. repeat split.
Qed.

(** When [generateKeys] returns [true], one key pair stands behind all it
    leaves: the private key file holds the saved private key, the public
    key file the saved public key of that private key, both encrypted under
    the key given, and the two strings are the hex encodings of the same two
    saved keys; no error is scheduled. *)
Theorem generateKeys_success_is_consistent
    (disk : Disk) (key : list byte) (folderPath : string) :
  ok (generateKeys disk key folderPath) = true ->
  exists d0,
    genPriv (generateKeys disk key folderPath) = HexEncoder (private_save d0)
    /\ genPub (generateKeys disk key folderPath)
       = HexEncoder (public_save (ecies_public d0))
    /\ disk_after (generateKeys disk key folderPath)
       = <[publicPath folderPath
           := fc_encrypt key (public_save (ecies_public d0))]>
           (<[privatePath folderPath
              := fc_encrypt key (private_save d0)]> disk)
    /\ error (generateKeys disk key folderPath) = None.
Proof.
  destruct (generateKeys_cases disk key folderPath)
    as (exit & attempts & d0 & vp & vq & ->).
  destruct (afterLoop 6 exit) as [what|]; [discriminate|]. cbn zeta.
  destruct (negb (vp && vq)); [discriminate|].
  destruct (negb (fc_writable (privatePath folderPath))); [discriminate|].
  destruct (negb (fc_writable (publicPath folderPath))); [discriminate|].
  intros _. exists d0. repeat split.
Qed.

(** When the entropy loop succeeds, both keys pass validation and the
    private key file is written, but writing the public key file throws,
    [generateKeys] returns [false] without scheduling any error, and the
    private key file stays on the disk without a public key file written
    beside it. *)
Theorem generateKeys_can_leave_the_private_key_alone
    (disk : Disk) (key : list byte) (folderPath : string) :
  forall exit prng attempts d0 prng1 prng2 prng3,
    entropyLoop (folderPath +:+ RNG_STATE_FILE_NAME) None 6 0 pool_new
    = (exit, prng, attempts) ->
    afterLoop 6 exit = None ->
    ecies_generate prng = (d0, prng1) ->
    private_valid prng1 d0 = (true, prng2) ->
    public_valid prng2 (ecies_public d0) = (true, prng3) ->
    fc_writable (privatePath folderPath) = true ->
    fc_writable (publicPath folderPath) = false ->
    ok (generateKeys disk key folderPath) = false
    /\ error (generateKeys disk key folderPath) = None
    /\ disk_after (generateKeys disk key folderPath)
       = <[privatePath folderPath := fc_encrypt key (private_save d0)]> disk
    /\ fst (generateKeys_method (mkECCISAAC key folderPath) disk)
       = {| thrown := None; returned := JsUndefined |}.
Proof.
  intros exit prng attempts d0 prng1 prng2 prng3 Hloop Hafter Hgen Hvp Hvq
         Hwpriv Hwpub.
  unfold generateKeys_method. cbn [_key _folderPath].
  rewrite (generateKeys_run disk key folderPath _ _ _ _ _ _ _ _ _
             Hloop Hgen Hvp Hvq).
  rewrite Hafter, Hwpriv, Hwpub. cbn. repeat split.
Qed.

(** Keys that [generateKeys] wrote load again under the same key: when
    [FileCryptopp] decrypts what it encrypted under that key and Crypto++
    loads the keys it saved, [loadKeys] on the disk [generateKeys] left
    returns SUCCESS with the two strings [generateKeys] returned. *)
Theorem keys_generated_then_loaded_are_the_same
    (disk : Disk) (key : list byte) (folderPath : string) :
  ok (generateKeys disk key folderPath) = true ->
  (forall data, fc_decrypt key (fc_encrypt key data) = Some data) ->
  (forall d, private_load (private_save d) = Some d) ->
  (forall e, public_load (public_save e) = Some e) ->
  loadKeys (disk_after (generateKeys disk key folderPath)) key folderPath
  = Some (mkLoaded SUCCESS (genPub (generateKeys disk key folderPath))
                   (genPriv (generateKeys disk key folderPath))).
Proof.
  intros Hok Hfc Hpriv Hpub.
  destruct (generateKeys_success_inv disk key folderPath Hok)
    as (d0 & -> & -> & -> & _).
  pose proof (key_paths_differ folderPath) as Hne.
  unfold loadKeys. rewrite LoadPrivateKey_cases, LoadPublicKey_cases.
  unfold fileExists, readFile. fold (privatePath folderPath).
  fold (publicPath folderPath).
  rewrite lookup_insert_eq.
  rewrite lookup_insert_ne by congruence. rewrite lookup_insert_eq.
  rewrite !bool_decide_eq_true_2 by (eexists; reflexivity).
  rewrite !Hfc, Hpriv, Hpub. reflexivity.
Qed.

(** Under a key that does not decrypt what [FileCryptopp] encrypted under
    the key of [generateKeys], [loadKeys] on the disk [generateKeys] left
    returns DECRYPTION_ERROR and no keys. *)
Theorem keys_generated_do_not_load_under_another_key
    (disk : Disk) (key other : list byte) (folderPath : string) :
  ok (generateKeys disk key folderPath) = true ->
  (forall data, fc_decrypt other (fc_encrypt key data) = None) ->
  loadKeys (disk_after (generateKeys disk key folderPath)) other folderPath
  = Some (mkLoaded DECRYPTION_ERROR EmptyString EmptyString).
Proof.
  intros Hok Hfc.
  destruct (generateKeys_success_inv disk key folderPath Hok)
    as (d0 & _ & _ & -> & _).
  pose proof (key_paths_differ folderPath) as Hne.
  unfold loadKeys. rewrite LoadPrivateKey_cases.
  unfold fileExists, readFile. fold (privatePath folderPath).
  rewrite lookup_insert_ne by congruence. rewrite lookup_insert_eq.
  rewrite bool_decide_eq_true_2 by (eexists; reflexivity).
  rewrite Hfc. reflexivity.
Qed.

End MoreKeyFileFacts.

(** ** eccisaac.cc: the constructor, the callbacks, encrypt and decrypt *)

Section MoreEccFacts.
Import Util Seifrng Rng EccIsaac EccIsaacMore Notions MoreNotions.
Context {sha3 : Sha3} {isaac : IsaacRandomPool} {fc : FileCryptopp}
        {ecies : Ecies} {cipher : EciesCipher} {eb : EmptyBack}.

Lemma list_ascii_of_append (s t : string) :
  list_ascii_of_string (s +:+ t)
  = list_ascii_of_string s ++ list_ascii_of_string t.
Proof.
  induction s as [|c s IH]; [reflexivity|]. simpl. rewrite IH. reflexivity.
Qed.

(** On a string that is not empty [back()] is its last character. *)
Lemma lacksSlash_last (s : string) :
  s <> EmptyString ->
  lacksSlash s = false
  <-> last (list_ascii_of_string s) = Some "/"%char.
Proof.
  intros Hs. unfold lacksSlash.
  destruct (last (list_ascii_of_string s)) as [c|] eqn:L.
  - destruct (Ascii.eqb_spec c "/"%char) as [->|Hc]; cbn [negb].
    + split; reflexivity.
    + split; [discriminate | intros [= E]; contradiction].
  - apply last_None in L. destruct s; [contradiction | discriminate].
Qed.

(** The folder of a constructed object ends in '/'.  A folder argument is
    read up to its first NUL; what is read is kept as it is when it ends in
    '/' and gets a '/' appended otherwise; without the argument the folder
    is "./".  (When nothing stands before the first NUL the code calls
    [back()] on an empty string: this case is left out.) *)
Theorem constructed_folder_ends_with_slash
    (info : list JsValue) (obj : ECCISAAC) :
  EccIsaac.New info = inr obj ->
  IsUndefined (arg info 1) = true
  \/ c_str (Utf8Value (arg info 1)) <> EmptyString ->
  last (list_ascii_of_string (_folderPath obj)) = Some "/"%char
  /\ _folderPath obj
     = (if IsUndefined (arg info 1) then "./"%string
        else
          let folder := c_str (Utf8Value (arg info 1)) in
          if bool_decide (last (list_ascii_of_string folder) = Some "/"%char)
          then folder else folder +:+ "/").
Proof.
  unfold EccIsaac.New.
  destruct (negb (HasInstance (arg info 0))); [discriminate|].
  intros [= <-] Hgiven. cbn [_folderPath].
  destruct (IsUndefined (arg info 1)); cbn [negb]; [split; reflexivity|].
  destruct Hgiven as [Hgiven|Hgiven]; [discriminate|].
  cbn zeta.
  pose proof (lacksSlash_last _ Hgiven) as Hlast.
  destruct (lacksSlash (c_str (Utf8Value (arg info 1)))) eqn:E.
  - rewrite bool_decide_eq_false_2
      by (intros H; apply Hlast in H; discriminate).
    split; [|reflexivity].
    rewrite list_ascii_of_append.
    change (list_ascii_of_string "/") with ["/"%char]. apply last_snoc.
  - rewrite bool_decide_eq_true_2 by (apply Hlast; reflexivity).
    split; [apply Hlast|]; reflexivity.
Qed.

(** The callback of [loadKeys] is called once, with a status and a second
    value.  When [loadKeys] returns, the status holds its code, which is 0,
    -1 or -2, with the message "Success", "File Not Found" or "Decryption
    Error", and the second value holds the two keys for code 0 and is
    [undefined] otherwise.  When a key file decrypts but does not load, the
    message is "Unknown Error", the second value is [undefined], and the code
    is the [int] that the worker's status member, never assigned, happens
    to hold: any [int], not only the code of a status. *)
Theorem loadKeys_callback_matches_status
    (stale : Z) (obj : ECCISAAC) (disk : Disk) :
  match loadKeys disk (_key obj) (_folderPath obj) with
  | Some w =>
      In (status_code (rc w)) [0; -1; -2]
      /\ loadKeys_method stale obj disk
         = [CbStatus (status_code (rc w)) (statusMessage (rc w));
            match rc w with
            | SUCCESS => CbKeys (encodedPub w) (encodedPriv w)
            | _ => CbUndefined
            end]
  | None =>
      loadKeys_method stale obj disk
      = [CbStatus stale "Unknown Error"; CbUndefined]
  end.
Proof.
  unfold loadKeys_method, WorkComplete, EccIsaac.Execute.
  assert (Hrc : forall w, loadKeys disk (_key obj) (_folderPath obj) = Some w ->
                          rc w = SUCCESS \/ rc w = FILE_NOT_FOUND
                          \/ rc w = DECRYPTION_ERROR).
  { intros w. unfold loadKeys.
    rewrite LoadPrivateKey_cases, LoadPublicKey_cases.
    destruct (fileExists disk _); [|intros [= <-]; auto].
    destruct (readFile disk _ _) as [s|]; [|intros [= <-]; auto].
    destruct (private_load s); [|discriminate]. cbn [option_map].
    destruct (fileExists disk _); [|intros [= <-]; auto].
    destruct (readFile disk _ _) as [t|]; [|intros [= <-]; auto].
    destruct (public_load t); [|discriminate]. cbn [option_map].
    intros [= <-]. auto. }
  destruct (loadKeys disk (_key obj) (_folderPath obj)) as [w|];
    [|reflexivity].
  unfold HandleOKCallback, HandleErrorCallback.
  destruct (Hrc w eq_refl) as [E | [E | E]]; rewrite !E; cbn;
    (split; [auto | rewrite ?E; reflexivity]).
Qed.

Lemma c_str_idempotent (s : string) : c_str (c_str s) = c_str s.
Proof.
  induction s as [|a s IH]; [reflexivity|]. cbn [c_str].
  destruct (Ascii.eqb a Ascii.zero) eqn:E; [reflexivity|].
  cbn [c_str]. rewrite E, IH. reflexivity.
Qed.

(** A message encrypted under the hex string of a public key comes back
    from [decrypt] under the hex string of its private key: when Crypto++
    loads the keys it saved, the hex decoder reads the hex encoder's strings
    of the two keys and of the cipher, and ECIES decrypts the cipher it
    produced, [encrypt] returns the hex string of that cipher and [decrypt]
    returns the message. *)
Theorem asymmetric_round_trip
    (os1 os2 : os_random) (d : PrivateKey) (m c : list byte) :
  public_load (public_save (ecies_public d)) = Some (ecies_public d) ->
  private_load (private_save d) = Some d ->
  HexDecoder (c_str (HexEncoder (public_save (ecies_public d))))
  = public_save (ecies_public d) ->
  HexDecoder (c_str (HexEncoder (private_save d))) = private_save d ->
  HexDecoder (c_str (HexEncoder c)) = c ->
  ecies_encrypt os1 (ecies_public d) m = inr c ->
  ecies_decrypt os2 d c = inr m ->
  encrypt os1 [JsString (HexEncoder (public_save (ecies_public d)));
               JsBuffer m]
  = SetReturn (JsString (c_str (HexEncoder c)))
  /\ decrypt os2 [JsString (HexEncoder (private_save d));
                  JsString (c_str (HexEncoder c))]
     = SetReturn (JsBuffer m).
Proof.
  intros Hpub Hpriv Hhexe Hhexd Hhexc Henc Hdec. split.
  - unfold encrypt.
    cbn [arg nth IsUndefined HasInstance negb Utf8Value BufferData].
    rewrite Hhexe, Hpub, Henc. reflexivity.
  - unfold decrypt.
    cbn [arg nth IsUndefined HasInstance negb Utf8Value BufferData].
    rewrite Hhexd, Hpriv, c_str_idempotent, Hhexc, Hdec. reflexivity.
Qed.

End MoreEccFacts.

(** ** aesxor.cc: the low bytes of a word *)

Section LowBytes.
Import AesXor Notions.
Context {ish : IntShift}.

(** Whatever the build does with the wide shifts, the first four bytes
    stored for every word of the list are the four low bytes of that word,
    least significant first: byte [i] of word [j] stands at position
    [8 * j + i] of the bytes stored. *)
Theorem low_bytes_are_little_endian
    (words : list Z) (j : nat) (w : Z) (i : nat) :
  words !! j = Some w -> (i < 4)%nat ->
  uInt64toBytes words !! (8 * j + i)%nat
  = Some (little_endian_byte w (Z.of_nat i)).
Proof.
  revert j. induction words as [|w0 rest IH]; intros j Hj Hi;
    [discriminate|].
  cbn [uInt64toBytes]. destruct j as [|j].
  - cbn in Hj. injection Hj as ->.
    change (seqZ 0 8) with [0; 1; 2; 3; 4; 5; 6; 7]. cbn [map app].
    destruct i as [|[|[|[|i]]]]; [| | | |lia]; cbn;
      rewrite word_byte_low by lia; reflexivity.
  - cbn [lookup list_lookup] in Hj.
    rewrite lookup_app_r by (rewrite length_map, length_seqZ; lia).
    rewrite length_map, length_seqZ.
    replace (8 * S j + i - Z.to_nat 8)%nat with (8 * j + i)%nat by lia.
    apply IH; assumption.
Qed.

End LowBytes.

(** ** The further statements on concrete inputs *)

Section MoreExamples.
Import Util AesXor Seifrng Rng EccIsaac Notions MoreNotions Demo DemoMore.

#[local] Existing Instance demo_sha3.
#[local] Existing Instance demo_pcg.
#[local] Existing Instance demo_gcm.
#[local] Existing Instance demo_shift.
#[local] Existing Instance demo_fc.
#[local] Existing Instance demo_back.

Lemma stream_of_3_begins_stream_of_11 :
  (3 <= 11)%nat
  /\ whiteningStream (construct 5) 3
     = take 3 (whiteningStream (construct 5) 11).
Proof.
  split; [lia|]. apply (whiteningStream_prefix (construct 5) 3 11). lia.
Defined.

Lemma wrapping_shift_on_a_word :
  map (word_byte 0x0807060504030201) (seqZ 0 8)
  = [little_endian_byte 0x0807060504030201 0;
     little_endian_byte 0x0807060504030201 1;
     little_endian_byte 0x0807060504030201 2;
     little_endian_byte 0x0807060504030201 3; x00; x00; x00;
     little_endian_byte 0x0807060504030201 7].
Proof.
  apply (wrapping_shift_drops_bytes_4_to_6 (ish := demo_shift)).
  intros n Hn. reflexivity.
Defined.

(** Eight bytes encrypted on the object seeded with 5 come back from an
    object seeded with 5, and not from one seeded with 6, whose stream is
    another. *)
Lemma eight_bytes_come_back_iff_streams_agree :
  let m := [x01; x02; x03; x04; x05; x06; x07; x08] in
  let c := "A"%byte :: zip_with byte_xor m (whiteningStream (construct 5) 8) in
  encrypt (construct 5) [JsBuffer key_A; JsBuffer m]
  = (SetReturn (JsBuffer c), advanced (construct 5) 8)
  /\ snd (xorRandomData (construct 5) (zeros (length m)) m) = []
  /\ whiteningStream (construct 6) (length m)
     <> whiteningStream (construct 5) (length m)
  /\ fst (decrypt (construct 6) [JsBuffer key_A; JsBuffer c])
     <> SetReturn (JsBuffer m)
  /\ fst (decrypt (construct 5) [JsBuffer key_A; JsBuffer c])
     = SetReturn (JsBuffer m).
Proof.
  cbn zeta.
  set (m := [x01; x02; x03; x04; x05; x06; x07; x08]).
  set (c := "A"%byte :: zip_with byte_xor m (whiteningStream (construct 5) 8)).
  assert (Haead : forall t, encryptBlock key_A t = inr c ->
                            decryptBlock key_A c = inr t).
  { intros t H. vm_compute in H. injection H as ->. reflexivity. }
  pose proof (decrypt_recovers_iff_streams_agree (construct 5) (construct 6)
                key_A m c (advanced (construct 5) 8)
                eq_refl eq_refl eq_refl Haead) as (Hin & _ & Hother).
  pose proof (decrypt_recovers_iff_streams_agree (construct 5) (construct 5)
                key_A m c (advanced (construct 5) 8)
                eq_refl eq_refl eq_refl Haead) as (_ & _ & Hsame).
  split; [reflexivity|]. split; [exact Hin|].
  assert (Hdiff : whiteningStream (construct 6) (length m)
                  <> whiteningStream (construct 5) (length m))
    by (vm_compute; discriminate).
  split; [exact Hdiff|].
  split.
  - intros H. apply Hdiff. apply Hother. exact H.
  - apply Hsame. reflexivity.
Defined.

(** Byte 2 of the second word of two stands at position 10. *)
Lemma third_byte_of_the_second_word :
  [0x0807060504030201; 0x1817161514131211] !! 1%nat = Some 0x1817161514131211
  /\ (2 < 4)%nat
  /\ uInt64toBytes [0x0807060504030201; 0x1817161514131211] !! 10%nat
     = Some (little_endian_byte 0x1817161514131211 2).
Proof.
  split; [reflexivity|]. split; [lia|].
  apply (low_bytes_are_little_endian
           [0x0807060504030201; 0x1817161514131211] 1 0x1817161514131211 2).
  - reflexivity.
  - lia.
Defined.

Lemma forged_block_changes_nothing :
  snd (decrypt (construct 5) [JsBuffer key_A; JsBuffer ["B"%byte; x01; x02]])
  = construct 5
  /\ returned
       (fst (decrypt (construct 5)
               [JsBuffer key_A; JsBuffer ["B"%byte; x01; x02]]))
     = JsUndefined.
Proof.
  apply (decrypt_that_throws_changes_nothing (construct 5)
           [JsBuffer key_A; JsBuffer ["B"%byte; x01; x02]]
           "HashVerificationFilter: message hash or MAC not valid").
  reflexivity.
Defined.

Lemma nine_bytes_consume_two_words :
  snd (encrypt (construct 5) [JsBuffer key_A; JsBuffer (repeat x00 9)])
  = {| _rng := snd (fillRandomVector ((length (repeat x00 9) + 7) / 8)
                      (_rng (construct 5))) |}.
Proof.
  apply (encrypt_consumes_the_stream (construct 5) key_A (repeat x00 9)).
  reflexivity.
Defined.

Lemma seeds_of_two_byte_buffers :
  bytesToUInt64 [x01; x02] = big_endian [x01; x02]
  /\ (bytesToUInt64 [x01; x02] = bytesToUInt64 [x01; x03] ->
      [x01; x02] = [x01; x03]).
Proof.
  apply (seed_of_short_buffers_is_exact [x01; x02] [x01; x03]).
  - cbn. lia.
  - reflexivity.
Defined.

Lemma hash_of_abc :
  SEIFSHA3.hash [JsString "abc"]
  = SEIFSHA3.hash [JsBuffer (list_byte_of_string "abc")].
Proof.
  apply (hash_of_string_is_hash_of_its_bytes "abc").
  repeat constructor; discriminate.
Defined.

Lemma key_of_ten_bytes_is_hashed :
  SEIFSHA3.hash [JsBuffer (repeat "k"%byte 10)]
  = SetReturn (JsBuffer (keyDigest (repeat "k"%byte 10))).
Proof.
  apply (short_key_digest_is_hash (repeat "k"%byte 10)). cbn. lia.
Defined.

#[local] Existing Instance ready_pool.
#[local] Existing Instance valid_ecies.
#[local] Existing Instance valid_cipher.

Lemma generated_keys_are_consistent :
  exists d0,
    genPriv (generateKeys empty_disk key_A "./") = HexEncoder (private_save d0)
    /\ genPub (generateKeys empty_disk key_A "./")
       = HexEncoder (public_save (ecies_public d0))
    /\ disk_after (generateKeys empty_disk key_A "./")
       = <[publicPath "./"
           := fc_encrypt key_A (public_save (ecies_public d0))]>
           (<[privatePath "./" := fc_encrypt key_A (private_save d0)]>
              empty_disk)
    /\ error (generateKeys empty_disk key_A "./") = None.
Proof.
  apply (generateKeys_success_is_consistent empty_disk key_A "./").
  reflexivity.
Defined.

Lemma private_key_left_alone :
  ok (generateKeys (fc := demo_fc_except (publicPath "./"))
        empty_disk key_A "./") = false
  /\ error (generateKeys (fc := demo_fc_except (publicPath "./"))
        empty_disk key_A "./") = None
  /\ disk_after (generateKeys (fc := demo_fc_except (publicPath "./"))
        empty_disk key_A "./")
     = <[privatePath "./"
         := fc_encrypt (FileCryptopp := demo_fc_except (publicPath "./"))
              key_A (private_save ([x01; x02; x03] : @PrivateKey ready_pool valid_ecies))]> empty_disk
  /\ fst (generateKeys_method (fc := demo_fc_except (publicPath "./"))
        (mkECCISAAC key_A "./") empty_disk)
     = {| thrown := None; returned := JsUndefined |}.
Proof.
  apply (generateKeys_can_leave_the_private_key_alone
           (isaac := ready_pool) (ecies := valid_ecies)
           (fc := demo_fc_except (publicPath "./")) empty_disk key_A "./"
           (LoopLeft 0) (1%nat : @pool ready_pool)
           [mkInitializeCall "./.ecies.rng" 0 None (Gathered true)]
           ([x01; x02; x03] : @PrivateKey ready_pool valid_ecies) (2%nat : @pool ready_pool)
           (3%nat : @pool ready_pool) (4%nat : @pool ready_pool));
    reflexivity.
Defined.

Lemma generated_keys_load_again :
  loadKeys (disk_after (generateKeys empty_disk key_A "./")) key_A "./"
  = Some (mkLoaded SUCCESS (genPub (generateKeys empty_disk key_A "./"))
            (genPriv (generateKeys empty_disk key_A "./"))).
Proof.
  apply (keys_generated_then_loaded_are_the_same empty_disk key_A "./").
  - reflexivity.
  - intros data. reflexivity.
  - intros d. reflexivity.
  - intros e. reflexivity.
Defined.

Lemma generated_keys_refuse_key_B :
  loadKeys (disk_after (generateKeys empty_disk key_A "./")) key_B "./"
  = Some (mkLoaded DECRYPTION_ERROR EmptyString EmptyString).
Proof.
  apply (keys_generated_do_not_load_under_another_key empty_disk key_A key_B
           "./").
  - reflexivity.
  - intros data. reflexivity.
Defined.

(** A folder argument with a NUL in it: what stands before the NUL is the
    folder, with a '/' appended. *)
Lemma folder_keys_gets_a_slash :
  let info := [JsBuffer key_A; JsString ("keys" +:+ String Ascii.zero "tmp/")] in
  EccIsaac.New info = inr (mkECCISAAC key_A "keys/")
  /\ c_str (Utf8Value (arg info 1)) <> EmptyString
  /\ last (list_ascii_of_string (_folderPath (mkECCISAAC key_A "keys/")))
     = Some "/"%char
  /\ _folderPath (mkECCISAAC key_A "keys/")
     = (if IsUndefined (arg info 1) then "./"%string
        else
          let folder := c_str (Utf8Value (arg info 1)) in
          if bool_decide (last (list_ascii_of_string folder) = Some "/"%char)
          then folder else folder +:+ "/").
Proof.
  cbn zeta. split; [reflexivity|]. split; [discriminate|].
  apply (constructed_folder_ends_with_slash
           [JsBuffer key_A; JsString ("keys" +:+ String Ascii.zero "tmp/")]
           (mkECCISAAC key_A "keys/")).
  - reflexivity.
  - right. discriminate.
Defined.

(** A private key file that decrypts but does not load: the callback gets
    the number the status member happened to hold, here 12345. *)
Lemma callback_with_a_stale_status :
  loadKeys (ecies := picky_ecies) disk_private_only key_A "./" = None
  /\ EccIsaacMore.loadKeys_method (ecies := picky_ecies) 12345
       (mkECCISAAC key_A "./") disk_private_only
     = [EccIsaacMore.CbStatus 12345 "Unknown Error"; EccIsaacMore.CbUndefined].
Proof.
  split; [reflexivity|].
  exact (loadKeys_callback_matches_status (ecies := picky_ecies) 12345
           (mkECCISAAC key_A "./") disk_private_only).
Defined.

Lemma two_bytes_through_ecies :
  EccIsaacMore.encrypt (cipher := valid_cipher)
    (tt : @EccIsaacMore.os_random ready_pool valid_ecies valid_cipher)
    [JsString (HexEncoder [x03; x02; x01]); JsBuffer ["a"%byte; "b"%byte]]
  = SetReturn (JsString (c_str
       (HexEncoder [x03; x02; x01; "a"%byte; "b"%byte])))
  /\ EccIsaacMore.decrypt (cipher := valid_cipher)
       (tt : @EccIsaacMore.os_random ready_pool valid_ecies valid_cipher)
       [JsString (HexEncoder [x01; x02; x03]);
        JsString (c_str (HexEncoder [x03; x02; x01; "a"%byte; "b"%byte]))]
     = SetReturn (JsBuffer ["a"%byte; "b"%byte]).
Proof.
  apply (asymmetric_round_trip (cipher := valid_cipher)
           (tt : @EccIsaacMore.os_random ready_pool valid_ecies valid_cipher)
           (tt : @EccIsaacMore.os_random ready_pool valid_ecies valid_cipher)
           ([x01; x02; x03] : @PrivateKey ready_pool valid_ecies)
           ["a"%byte; "b"%byte] [x03; x02; x01; "a"%byte; "b"%byte]);
    reflexivity.
Defined.

End MoreExamples.
